(** * Skill packager: a shallow embedding of [scripts/package_skill.py]

    The script validates a skill name, checks the YAML frontmatter of
    [SKILL.md], and zips the skill directory into [<name>.skill].

    Python values are modelled as follows.
    - A [str] is the list of its Unicode code points ([N]); [len] is [length].
    - File contents are byte strings; a file written by [zipfile] is kept as
      the list of its members and turned into bytes only when it is read.
    - The file system is a tree of directories and regular files, together
      with a current working directory; symbolic links, permissions and time
      stamps are not modelled.
    - [print], the file-system calls and the [ZipFile] object act on an
      explicit [world] that is threaded through a small state monad, which
      also records every file-system call in a trace.

    Behaviour of CPython that the script only passes through (the bytes of a
    ZIP image, the text of an exception, the rendering of a float) is
    collected in the record [Runtime] and taken as a parameter. *)

From Stdlib Require Import List NArith ZArith Bool Lia Ascii.
From Stdlib Require Strings.String Strings.Byte.
Import ListNotations String.StringSyntax.
Delimit Scope string_scope with string.
Set Warnings "-register-all".

(* ================================================================== *)
(** * Python strings *)
(* ================================================================== *)

Module Py.

(** A code point. *)
Definition char := N.

(** [str]: an immutable sequence of code points. *)
Definition str := list char.

(** An ASCII literal of the source as a [str]. *)
Definition lit (x : String.string) : str :=
  map N_of_ascii (String.list_ascii_of_string x).
Arguments lit x%_string.

Definition NL : char := 10%N.
Definition CR : char := 13%N.

(** [a == b] on strings. *)
Fixpoint eqb (a b : str) : bool :=
  match a, b with
  | [], [] => true
  | x :: a', y :: b' => N.eqb x y && eqb a' b'
  | _, _ => false
  end.

(** [s.startswith(p)] *)
Fixpoint startswith (p s : str) : bool :=
  match p, s with
  | [], _ => true
  | x :: p', y :: s' => N.eqb x y && startswith p' s'
  | _ :: _, [] => false
  end.

(** [needle in hay] *)
Fixpoint contains (needle hay : str) : bool :=
  startswith needle hay ||
  match hay with
  | [] => false
  | _ :: hay' => contains needle hay'
  end.

(** [s.split(sep)] for a one-character separator: never empty. *)
Fixpoint split (sep : char) (s : str) : list str :=
  match s with
  | [] => [[]]
  | c :: s' =>
      if N.eqb c sep then [] :: split sep s'
      else match split sep s' with
           | l :: ls => (c :: l) :: ls
           | [] => [[c]]
           end
  end.

(** [sep.join(parts)] *)
Fixpoint join (sep : str) (parts : list str) : str :=
  match parts with
  | [] => []
  | p :: ps =>
      match ps with
      | [] => p
      | _ :: _ => p ++ sep ++ join sep ps
      end
  end.

(** [c.isspace()], the characters removed by [str.strip()]:
    U+0009..U+000D, U+001C..U+0020, U+0085, U+00A0, U+1680,
    U+2000..U+200A, U+2028, U+2029, U+202F, U+205F, U+3000. *)
Definition isspace (c : char) : bool :=
  ((9 <=? c) && (c <=? 13) || (28 <=? c) && (c <=? 32)
   || (c =? 133) || (c =? 160) || (c =? 5760)
   || (8192 <=? c) && (c <=? 8202)
   || (c =? 8232) || (c =? 8233) || (c =? 8239) || (c =? 8287)
   || (c =? 12288))%N.

Fixpoint lstrip (s : str) : str :=
  match s with
  | c :: s' => if isspace c then lstrip s' else s
  | [] => []
  end.

Definition rstrip (s : str) : str := rev (lstrip (rev s)).

(** [s.strip()] *)
Definition strip (s : str) : str := rstrip (lstrip s).

(** [l[a:b]] for [0 <= a] and [0 <= b]. *)
Definition slice {A : Type} (l : list A) (a b : Z) : list A :=
  skipn (Z.to_nat a) (firstn (Z.to_nat b) l).

(** [{x}] inside an f-string for an optional message. *)
Definition fmt_opt (x : option str) : str :=
  match x with
  | Some s => s
  | None => lit "None"
  end.

(** What [startswith] and [in] decide. *)
Definition Prefix (p s : str) : Prop := exists r, s = p ++ r.
Definition Substring (n s : str) : Prop := exists a b, s = a ++ n ++ b.

End Py.

Import Py.

(* ================================================================== *)
(** * The regular expression of [validate_skill_name] *)
(* ================================================================== *)

(** The fragment of Python's [re] that the script uses, run by a
    backtracking matcher in continuation-passing style. *)
Module Re.

Inductive regex :=
| Bol                                  (* ^ *)
| Eol                                  (* $ *)
| ClassPlus (cls : char -> bool)       (* [...]+ *)
| Cat (r1 r2 : regex).

(** [$] without [re.MULTILINE]: the end of the string, or just before a
    newline that is the last character of the string. *)
Definition at_eol (rest : str) : bool :=
  match rest with
  | [] => true
  | [c] => N.eqb c NL
  | _ => false
  end.

(** One or more characters of the class, longest first; [k] is tried on the
    remainder after each admissible repetition count. *)
Fixpoint plus_loop (cls : char -> bool) (k : str -> bool) (rest : str) : bool :=
  match rest with
  | c :: rest' => cls c && (plus_loop cls k rest' || k rest')
  | [] => false
  end.

(** [run r start rest k]: [r] matches a prefix of [rest] and [k] accepts what
    follows; [start] tells whether the position is the start of the string. *)
Fixpoint run (r : regex) (start : bool) (rest : str)
  (k : bool -> str -> bool) : bool :=
  match r with
  | Bol => start && k start rest
  | Eol => at_eol rest && k start rest
  | ClassPlus cls => plus_loop cls (k false) rest
  | Cat r1 r2 => run r1 start rest (fun start' rest' => run r2 start' rest' k)
  end.

(** [re.match(r, s)] as a truth value: a match anchored at position 0. *)
Definition match_ (r : regex) (s : str) : bool :=
  run r true s (fun _ _ => true).

End Re.

(** [[a-z0-9-]] *)
Definition name_class (c : char) : bool :=
  ((97 <=? c) && (c <=? 122) || (48 <=? c) && (c <=? 57) || (c =? 45))%N.

(** [r'^[a-z0-9-]+$'] *)
Definition name_pattern : Re.regex :=
  Re.Cat Re.Bol (Re.Cat (Re.ClassPlus name_class) Re.Eol).

(* ================================================================== *)
(** * validate_skill_name *)
(* ================================================================== *)

Definition InvalidFormat : str :=
  lit "Skill name must contain only lowercase letters, numbers, and hyphens".
Definition TooLong : str :=
  lit "Skill name must be 64 characters or less".

Definition validate_skill_name (name : str) : bool * option str :=
  if negb (Re.match_ name_pattern name) then (false, Some InvalidFormat)
  else if 64 <? length name then (false, Some TooLong)
  else (true, None).

(** What the docstring and the first message promise: one or more lowercase
    letters, digits and hyphens, and nothing else. *)
Definition well_formed_name (name : str) : Prop :=
  name <> [] /\ Forall (fun c => name_class c = true) name.

(* ================================================================== *)
(** * The checks of validate_frontmatter on the text of SKILL.md *)
(* ================================================================== *)

Definition MissingStart : str :=
  lit "SKILL.md must start with YAML frontmatter (---)".
Definition MissingEnd : str :=
  lit "SKILL.md frontmatter must end with ---".
Definition MissingName : str :=
  lit "SKILL.md frontmatter must include 'name:' field".
Definition MissingDescription : str :=
  lit "SKILL.md frontmatter must include 'description:' field".

Definition delimiter : str := lit "---".

(** The loop [for i, line in enumerate(lines[1:], start=1)]: the index of
    the first line whose [strip()] is the delimiter, [-1] when the loop
    ends without [break]. The argument [i] is the index of the head. *)
Fixpoint find_end (lines : list str) (i : Z) : Z :=
  match lines with
  | [] => (-1)%Z
  | line :: lines' =>
      if eqb (strip line) delimiter then i
      else find_end lines' (i + 1)%Z
  end.

(** Lines 30 to 53 of the script, on the text that was read. *)
Definition check_frontmatter (content : str) : bool * option str :=
  if negb (startswith delimiter content) then (false, Some MissingStart)
  else
    let lines := split NL content in
    let frontmatter_end := find_end (tl lines) 1 in
    if (frontmatter_end =? -1)%Z then (false, Some MissingEnd)
    else
      let frontmatter := join [NL] (slice lines 1 frontmatter_end) in
      if negb (contains (lit "name:") frontmatter) then
        (false, Some MissingName)
      else if negb (contains (lit "description:") frontmatter) then
        (false, Some MissingDescription)
      else (true, None).

(* ================================================================== *)
(** * Bytes and text decoding *)
(* ================================================================== *)

Definition bytes := list Byte.byte.

Definition blit (x : String.string) : bytes := String.list_byte_of_string x.
Arguments blit x%_string.

Module Utf8.

Definition cont (b : N) : bool := ((128 <=? b) && (b <=? 191))%N.

(** Second byte of a three-byte sequence: no overlong forms, no surrogates. *)
Definition second3 (b0 b1 : N) : bool :=
  (if b0 =? 224 then (160 <=? b1) && (b1 <=? 191)
   else if b0 =? 237 then (128 <=? b1) && (b1 <=? 159)
   else cont b1)%N.

(** Second byte of a four-byte sequence: no overlong forms, at most U+10FFFF. *)
Definition second4 (b0 b1 : N) : bool :=
  (if b0 =? 240 then (144 <=? b1) && (b1 <=? 191)
   else if b0 =? 244 then (128 <=? b1) && (b1 <=? 143)
   else cont b1)%N.

(** [bytes.decode('utf-8')] with [errors='strict']; [None] stands for
    [UnicodeDecodeError]. *)
Fixpoint decode_N (bs : list N) : option str :=
  match bs with
  | [] => Some []
  | b0 :: t0 =>
    if (b0 <? 128)%N then option_map (cons b0) (decode_N t0)
    else
      match t0 with
      | [] => None
      | b1 :: t1 =>
        if ((194 <=? b0) && (b0 <=? 223))%N then
          if cont b1 then
            option_map (cons ((b0 - 192) * 64 + (b1 - 128))%N) (decode_N t1)
          else None
        else
          match t1 with
          | [] => None
          | b2 :: t2 =>
            if ((224 <=? b0) && (b0 <=? 239))%N then
              if second3 b0 b1 && cont b2 then
                option_map
                  (cons ((b0 - 224) * 4096 + (b1 - 128) * 64 + (b2 - 128))%N)
                  (decode_N t2)
              else None
            else
              match t2 with
              | [] => None
              | b3 :: t3 =>
                if ((240 <=? b0) && (b0 <=? 244))%N
                   && second4 b0 b1 && cont b2 && cont b3 then
                  option_map
                    (cons ((b0 - 240) * 262144 + (b1 - 128) * 4096
                           + (b2 - 128) * 64 + (b3 - 128))%N)
                    (decode_N t3)
                else None
              end
          end
      end
  end.

Definition decode (bs : bytes) : option str := decode_N (map Byte.to_N bs).

End Utf8.

(** Text mode with [newline=None]: [\r\n] and a lone [\r] are read as [\n]. *)
Fixpoint universal_newlines (s : str) : str :=
  match s with
  | [] => []
  | c :: s' =>
      if N.eqb c CR then
        NL :: match s' with
              | d :: s'' =>
                  if N.eqb d NL then universal_newlines s''
                  else universal_newlines s'
              | [] => []
              end
      else c :: universal_newlines s'
  end.

(* ================================================================== *)
(** * pathlib paths *)
(* ================================================================== *)

Definition SLASH : char := 47%N.
Definition DOT : char := 46%N.
Definition DOTDOT : str := [DOT; DOT].

(** A [PurePosixPath]: whether it is anchored at the root, and its parts
    (the root itself is not listed among them). *)
Record Path := mkPath { absolute : bool; parts : list str }.

Definition keep_part (c : str) : bool := negb (eqb c []) && negb (eqb c [DOT]).

(** [Path(s)]: empty components and [.] are dropped, [..] is kept. *)
Definition parse (s : str) : Path :=
  mkPath (startswith [SLASH] s) (filter keep_part (split SLASH s)).

(** [p / s] *)
Definition joinpath (p : Path) (s : str) : Path :=
  let q := parse s in
  if absolute q then q
  else mkPath (absolute p) (parts p ++ parts q).

(** [p.parent] *)
Definition parent (p : Path) : Path :=
  mkPath (absolute p) (removelast (parts p)).

(** [p.name] *)
Definition name_of (p : Path) : str := last (parts p) [].

Fixpoint strip_prefix (pre l : list str) : option (list str) :=
  match pre, l with
  | [], _ => Some l
  | x :: pre', y :: l' => if eqb x y then strip_prefix pre' l' else None
  | _ :: _, [] => None
  end.

(** [p.relative_to(other)]; [None] stands for [ValueError]. *)
Definition relative_to (p other : Path) : option Path :=
  if Bool.eqb (absolute p) (absolute other) then
    option_map (mkPath false) (strip_prefix (parts other) (parts p))
  else None.

(** [str(p)] *)
Definition to_str (p : Path) : str :=
  if absolute p then SLASH :: join [SLASH] (parts p)
  else match parts p with
       | [] => [DOT]
       | _ :: _ => join [SLASH] (parts p)
       end.

(* ================================================================== *)
(** * The file system *)
(* ================================================================== *)

(** A member of an archive: its name and its uncompressed data. *)
Definition zip_entry := (str * bytes)%type.

(** What a regular file holds: plain bytes, or an archive written by
    [zipfile], complete ([closed = true]) or still being written. *)
Inductive content :=
| Raw (data : bytes)
| Zip (closed : bool) (members : list zip_entry).

(** A directory lists its entries in the order in which [os.scandir]
    reports them. *)
Inductive node :=
| File (c : content)
| Dir (entries : list (str * node)).

Inductive errno := ENOENT | ENOTDIR | EISDIR.

Inductive exn :=
| OSError (e : errno) (filename : Path)
| UnicodeDecodeError
| ValueError.

Fixpoint assoc (k : str) (es : list (str * node)) : option node :=
  match es with
  | [] => None
  | (k', n) :: es' => if eqb k' k then Some n else assoc k es'
  end.

(** The node at a location, given by the names from the root down. *)
Fixpoint lookup (n : node) (loc : list str) : option node :=
  match loc with
  | [] => Some n
  | k :: loc' =>
      match n with
      | Dir es =>
          match assoc k es with
          | Some m => lookup m loc'
          | None => None
          end
      | File _ => None
      end
  end.

(** Path resolution as the kernel does it: from the location [cur], one
    component at a time; every component but the last must be a directory,
    and [..] steps to the parent (the root is its own parent). *)
Fixpoint resolve (root : node) (cur : list str) (comps : list str)
  : errno + list str :=
  match comps with
  | [] =>
      match lookup root cur with
      | Some _ => inr cur
      | None => inl ENOENT
      end
  | c :: comps' =>
      match lookup root cur with
      | Some (Dir _) =>
          if eqb c DOTDOT then resolve root (removelast cur) comps'
          else resolve root (cur ++ [c]) comps'
      | Some (File _) => inl ENOTDIR
      | None => inl ENOENT
      end
  end.

(** Where resolution of a path starts. *)
Definition origin (cwd : list str) (p : Path) : list str :=
  if absolute p then [] else cwd.

Definition locate (root : node) (cwd : list str) (p : Path)
  : errno + list str :=
  resolve root (origin cwd p) (parts p).

(** [os.stat(p)], reduced to the node found. *)
Definition stat (root : node) (cwd : list str) (p : Path) : errno + node :=
  match locate root cwd p with
  | inl e => inl e
  | inr loc =>
      match lookup root loc with
      | Some n => inr n
      | None => inl ENOENT
      end
  end.

(** Rewrite the first entry named [k] with [f]; without such an entry the
    directory becomes [es ++ missing]. *)
Fixpoint update_entry (f : node -> node) (missing : list (str * node))
  (k : str) (es : list (str * node)) : list (str * node) :=
  match es with
  | [] => missing
  | (k', m) :: es' =>
      if eqb k' k then (k', f m) :: es'
      else (k', m) :: update_entry f missing k es'
  end.

(** Store a regular file with content [c] at location [loc]: an entry of
    that name is replaced where it stands, a new name is added at the end of
    its directory. Nothing happens when the directory is missing. *)
Fixpoint put (n : node) (loc : list str) (c : content) {struct loc} : node :=
  match loc with
  | [] => File c
  | k :: loc' =>
      match n with
      | File _ => n
      | Dir es =>
          Dir (update_entry (fun m => put m loc' c)
                 match loc' with
                 | [] => [(k, File c)]
                 | _ :: _ => []
                 end
                 k es)
      end
  end.

(** Where [open(p, 'w+b')] creates or truncates a file, or why it fails. *)
Definition create_at (root : node) (cwd : list str) (p : Path)
  : errno + list str :=
  match parts p with
  | [] => inl EISDIR
  | _ :: _ =>
      match resolve root (origin cwd p) (removelast (parts p)) with
      | inl e => inl e
      | inr d =>
          match lookup root d with
          | Some (Dir _) =>
              if eqb (name_of p) DOTDOT then inl EISDIR
              else
                match lookup root (d ++ [name_of p]) with
                | Some (Dir _) => inl EISDIR
                | _ => inr (d ++ [name_of p])
                end
          | _ => inl ENOTDIR
          end
      end
  end.

Definition is_dir (n : node) : bool :=
  match n with Dir _ => true | File _ => false end.

Definition dirnames (es : list (str * node)) : list str :=
  map fst (filter (fun e => is_dir (snd e)) es).

Definition filenames (es : list (str * node)) : list str :=
  map fst (filter (fun e => negb (is_dir (snd e))) es).

(** [os.walk(top)], top-down, not following links: for each directory the
    triple [(root, dirs, files)], then the triples of its sub-directories in
    the order of [dirs]. A [top] that is not a directory yields nothing. *)
Fixpoint walk (top : Path) (n : node) : list (Path * list str * list str) :=
  match n with
  | File _ => []
  | Dir es =>
      (top, dirnames es, filenames es)
      :: flat_map (fun e =>
           match snd e with
           | Dir _ => walk (joinpath top (fst e)) (snd e)
           | File _ => []
           end) es
  end.

(* ================================================================== *)
(** * The world and its monad *)
(* ================================================================== *)

(** One entry per call that reaches the file system. *)
Inductive event :=
| Getcwd
| Stat (p : Path)
| OpenRead (p : Path)
| Scandir (p : Path)
| OpenWrite (p : Path)
| WriteData (loc : list str).

Definition is_write (e : event) : bool :=
  match e with
  | OpenWrite _ | WriteData _ => true
  | _ => false
  end.

Record world := mkWorld {
  fs : node;               (* the root directory *)
  cwd : list str;          (* location of the working directory *)
  stdout : list str;       (* one item per call of print *)
  trace : list event       (* the file-system calls made so far *)
}.

Definition M (A : Type) : Type := world -> A * world.

Definition ret {A} (a : A) : M A := fun w => (a, w).

Definition bind {A B} (m : M A) (k : A -> M B) : M B :=
  fun w => let (a, w') := m w in k a w'.

Notation "x <- c ;; k" := (bind c (fun x => k))
  (at level 61, c at next level, right associativity).
Notation "' pat <- c ;; k" := (bind c (fun x => match x with pat => k end))
  (at level 61, pat pattern, c at next level, right associativity).
Notation "c ;; k" := (bind c (fun _ => k))
  (at level 61, right associativity).

Definition log (e : event) (w : world) : world :=
  mkWorld (fs w) (cwd w) (stdout w) (trace w ++ [e]).

Definition log_all (es : list event) (w : world) : world :=
  mkWorld (fs w) (cwd w) (stdout w) (trace w ++ es).

Definition set_fs (t : node) (w : world) : world :=
  mkWorld t (cwd w) (stdout w) (trace w).

(** [print(s)] *)
Definition print (s : str) : M unit :=
  fun w => (tt, mkWorld (fs w) (cwd w) (stdout w ++ [s]) (trace w)).

(** [Path.cwd()] *)
Definition path_cwd : M Path :=
  fun w => (mkPath true (cwd w), log Getcwd w).

(** [p.exists()]: [stat] with [ENOENT] and [ENOTDIR] read as absence. *)
Definition exists_ (p : Path) : M bool :=
  fun w =>
    (match stat (fs w) (cwd w) p with inr _ => true | inl _ => false end,
     log (Stat p) w).

(** The open [ZipFile]: the file it writes to and the members so far. *)
Record ZipFile := mkZip { zf_loc : list str; zf_members : list zip_entry }.

(** The emoji of the messages. *)
Definition CROSS : str := [10060%N].      (* U+274C *)
Definition CHECK : str := [10003%N].      (* U+2713 *)
Definition PACKAGE : str := [128230%N].   (* U+1F4E6 *)
Definition WRENCH : str := [128295%N].    (* U+1F527 *)
Definition OUTBOX : str := [128228%N].    (* U+1F4E4 *)

(** What CPython decides and the script passes through. *)
Record Runtime := mkRuntime {
  zip_image : bool -> list zip_entry -> bytes;  (* the bytes of an archive *)
  exn_str : exn -> str;                         (* str(e) *)
  fmt_kb : N -> str                             (* f"{st_size / 1024:.1f}" *)
}.

Section Packager.

Variable RT : Runtime.

(** The bytes of a regular file. *)
Definition read_bytes (c : content) : bytes :=
  match c with
  | Raw data => data
  | Zip closed members => zip_image RT closed members
  end.

(** [open(p, 'r', encoding='utf-8')] followed by [read()]. *)
Definition read_text (root : node) (wd : list str) (p : Path) : exn + str :=
  match stat root wd p with
  | inl e => inl (OSError e p)
  | inr (Dir _) => inl (OSError EISDIR p)
  | inr (File c) =>
      match Utf8.decode (read_bytes c) with
      | Some s => inr (universal_newlines s)
      | None => inl UnicodeDecodeError
      end
  end.

Definition open_read_text (p : Path) : M (exn + str) :=
  fun w => (read_text (fs w) (cwd w) p, log (OpenRead p) w).

(** [zipfile.ZipFile(p, 'w', ZIP_DEFLATED)]: the file is created empty, or
    truncated, as soon as the object is made. *)
Definition zip_open (p : Path) : M (exn + ZipFile) :=
  fun w =>
    match create_at (fs w) (cwd w) p with
    | inl e => (inl (OSError e p), log (OpenWrite p) w)
    | inr loc =>
        (inr (mkZip loc []),
         set_fs (put (fs w) loc (Raw [])) (log (OpenWrite p) w))
    end.

(** [os.walk(top)]. The generator is consumed while the archive is being
    written, but the only file that changes meanwhile is the archive, and
    only in its content, so the triples are those of the tree at the
    first step. Each directory visited is scanned once; a [top] that
    cannot be scanned is asked for all the same. *)
Definition os_walk (top : Path) : M (list (Path * list str * list str)) :=
  fun w =>
    let triples :=
      match stat (fs w) (cwd w) top with
      | inr n => walk top n
      | inl _ => []
      end in
    (triples,
     log_all
       match triples with
       | [] => [Scandir top]
       | _ :: _ => map (fun t => Scandir (fst (fst t))) triples
       end w).

(** [zipf.write(file_path, arcname)]: the file is read as it is now and
    added as a member (a directory becomes an empty member whose name ends
    in a slash); the archive on disk then holds the members so far. The
    member is named [str(arcname)]: [os.path.normpath], through which
    [ZipInfo.from_file] passes it, leaves a relative path of plain names as
    it is. When the file read is the archive itself, what is read is what
    stands on disk at that moment, and the copy is taken to end there. *)
Definition zip_write (zipf : ZipFile) (file_path arcname : Path)
  : M (ZipFile * option exn) :=
  fun w =>
    match stat (fs w) (cwd w) file_path with
    | inl e => ((zipf, Some (OSError e file_path)), log (Stat file_path) w)
    | inr n =>
        let member :=
          match n with
          | File c => (to_str arcname, read_bytes c)
          | Dir _ => (to_str arcname ++ [SLASH], [])
          end in
        let members := zf_members zipf ++ [member] in
        ((mkZip (zf_loc zipf) members, None),
         set_fs (put (fs w) (zf_loc zipf) (Zip false members))
           (log (WriteData (zf_loc zipf)) (log (OpenRead file_path) w)))
    end.

(** Leaving the [with] block: the central directory is written. *)
Definition zip_close (zipf : ZipFile) : M unit :=
  fun w =>
    (tt, set_fs (put (fs w) (zf_loc zipf) (Zip true (zf_members zipf)))
           (log (WriteData (zf_loc zipf)) w)).

(** [p.stat().st_size] (the script only asks for a file it has written). *)
Definition stat_size (p : Path) : M (exn + N) :=
  fun w =>
    (match stat (fs w) (cwd w) p with
     | inl e => inl (OSError e p)
     | inr (File c) => inr (N.of_nat (length (read_bytes c)))
     | inr (Dir _) => inr 0%N
     end,
     log (Stat p) w).

(* ------------------------------------------------------------------ *)
(** ** validate_frontmatter *)

Definition validate_frontmatter (skill_md_path : Path)
  : M (bool * option str) :=
  r <- open_read_text skill_md_path ;;
  match r with
  | inr content => ret (check_frontmatter content)
  | inl e => ret (false, Some (lit "Error reading SKILL.md: " ++ exn_str RT e))
  end.

(* ------------------------------------------------------------------ *)
(** ** package_skill *)

(** [for file in files:] of one triple. The [ZipFile] is returned together
    with the exception that ended the loop, if any. *)
Fixpoint write_files (zipf : ZipFile) (root : Path) (source_parent : Path)
  (files : list str) : M (ZipFile * option exn) :=
  match files with
  | [] => ret (zipf, None)
  | file :: files' =>
      let file_path := joinpath root file in
      match relative_to file_path source_parent with
      | None => ret (zipf, Some ValueError)
      | Some arcname =>
          ' (zipf', raised) <- zip_write zipf file_path arcname ;;
          match raised with
          | Some e => ret (zipf', Some e)
          | None =>
              print (lit "  + " ++ to_str arcname) ;;
              write_files zipf' root source_parent files'
          end
      end
  end.

(** [for root, dirs, files in os.walk(source_path):] *)
Fixpoint write_tree (zipf : ZipFile) (source_parent : Path)
  (triples : list (Path * list str * list str)) : M (ZipFile * option exn) :=
  match triples with
  | [] => ret (zipf, None)
  | (root, _, files) :: triples' =>
      ' (zipf', raised) <- write_files zipf root source_parent files ;;
      match raised with
      | Some e => ret (zipf', Some e)
      | None => write_tree zipf' source_parent triples'
      end
  end.

Definition DirectoryNotFound (source_path : Path) : str :=
  CROSS ++ lit " Error: Skill directory not found: " ++ to_str source_path.

Definition ManifestNotFound (source_path : Path) : str :=
  CROSS ++ lit " Error: SKILL.md not found in " ++ to_str source_path.

Definition PackagingError (e : exn) : str :=
  CROSS ++ lit " Error creating package: " ++ exn_str RT e.

Definition package_skill (skill_name : str)
  (source_path output_path : option str) : M bool :=
  (* Validate skill name *)
  let '(valid, error) := validate_skill_name skill_name in
  if negb valid then
    print (CROSS ++ lit " Error: " ++ fmt_opt error) ;;
    ret false
  else
  (* Determine source path *)
  source_path <-
    match source_path with
    | None => here <- path_cwd ;; ret (joinpath here skill_name)
    | Some given => ret (joinpath (parse given) skill_name)
    end ;;
  found <- exists_ source_path ;;
  if negb found then
    print (DirectoryNotFound source_path) ;;
    ret false
  else
  (* Check for SKILL.md *)
  let skill_md := joinpath source_path (lit "SKILL.md") in
  found <- exists_ skill_md ;;
  if negb found then
    print (ManifestNotFound source_path) ;;
    ret false
  else
  (* Validate frontmatter *)
  ' (valid, error) <- validate_frontmatter skill_md ;;
  if negb valid then
    print (CROSS ++ lit " Error: " ++ fmt_opt error) ;;
    ret false
  else
  print (CHECK ++ lit " Skill structure validated: " ++ skill_name) ;;
  (* Determine output path *)
  output_path <-
    match output_path with
    | None => path_cwd
    | Some given => ret (parse given)
    end ;;
  let output_file := joinpath output_path (skill_name ++ lit ".skill") in
  (* Create ZIP file with proper structure *)
  print (PACKAGE ++ lit " Creating package: " ++ to_str output_file) ;;
  opened <- zip_open output_file ;;
  match opened with
  | inl e => print (PackagingError e) ;; ret false
  | inr zipf =>
      triples <- os_walk source_path ;;
      ' (zipf, raised) <- write_tree zipf (parent source_path) triples ;;
      zip_close zipf ;;
      match raised with
      | Some e => print (PackagingError e) ;; ret false
      | None =>
          (* Get file size *)
          size <- stat_size output_file ;;
          match size with
          | inl e => print (PackagingError e) ;; ret false
          | inr st_size =>
              print (NL :: CHECK ++ lit " Skill packaged successfully!") ;;
              print (lit "  File: " ++ to_str output_file) ;;
              print (lit "  Size: " ++ fmt_kb RT st_size ++ lit " KB") ;;
              print (NL :: OUTBOX ++ lit " To upload to Claude.ai:") ;;
              print (lit "  1. Go to Settings -> Capabilities") ;;
              print (lit "  2. Click 'Upload Custom Skill'") ;;
              print (lit "  3. Select " ++ name_of output_file) ;;
              print (lit "  4. The skill will be available in future chats") ;;
              ret true
          end
      end
  end.

(* ------------------------------------------------------------------ *)
(** ** main *)

(** [main()] with [sys.argv = argv]; the value is the exit status handed to
    [sys.exit]. *)
Definition main (argv : list str) : M Z :=
  if length argv <? 2 then
    print (lit "Usage: python package_skill.py <skill-name> [source-path] [output-path]") ;;
    print (NL :: lit "Examples:") ;;
    print (lit "  python package_skill.py simple-greeter") ;;
    print (lit "  python package_skill.py my-skill /path/to/skills .") ;;
    ret 1%Z
  else
    let skill_name := nth 1 argv [] in
    let source_path := nth_error argv 2 in
    let output_path := nth_error argv 3 in
    print (WRENCH ++ lit " Packaging skill: " ++ skill_name ++ [NL]) ;;
    success <- package_skill skill_name source_path output_path ;;
    ret (if success then 0%Z else 1%Z).

End Packager.

(* ================================================================== *)
(** * Vocabulary of the statements *)
(* ================================================================== *)

(** The Source Tree of a run: [<source base or cwd>/<skill_name>]. *)
Definition source_dir (skill_name : str) (source_path : option str)
  (w : world) : Path :=
  match source_path with
  | None => joinpath (mkPath true (cwd w)) skill_name
  | Some given => joinpath (parse given) skill_name
  end.

(** The manifest of a run. *)
Definition manifest (skill_name : str) (source_path : option str)
  (w : world) : Path :=
  joinpath (source_dir skill_name source_path w) (lit "SKILL.md").

(** The output file of a run: [<output dir or cwd>/<skill_name>.skill]. *)
Definition output_file (skill_name : str) (output_path : option str)
  (w : world) : Path :=
  joinpath
    match output_path with
    | None => mkPath true (cwd w)
    | Some given => parse given
    end
    (skill_name ++ lit ".skill").

(** Whether a path names something in the world. *)
Definition present (w : world) (p : Path) : bool :=
  match stat (fs w) (cwd w) p with
  | inr _ => true
  | inl _ => false
  end.

(** No line is taken for a closing delimiter. *)
Definition no_closing (lines : list str) : Prop :=
  forall line, In line lines -> strip line <> delimiter.

(** A name that a directory can hold. *)
Definition valid_name (s : str) : bool :=
  negb (eqb s []) && negb (existsb (N.eqb SLASH) s)
  && negb (eqb s [DOT]) && negb (eqb s DOTDOT).

Fixpoint distinct (names : list str) : bool :=
  match names with
  | [] => true
  | k :: ks => negb (existsb (eqb k) ks) && distinct ks
  end.

(** A tree as a file system has it: in every directory the names are valid
    and no name occurs twice. *)
Fixpoint wf_node (n : node) : bool :=
  match n with
  | File _ => true
  | Dir es =>
      distinct (map fst es)
      && forallb (fun e => valid_name (fst e) && wf_node (snd e)) es
  end.

(** The regular files below a directory, each with the names that lead to
    it, in the order in which [package_skill] meets them: the files of the
    directory itself, then those of its sub-directories in turn. *)
Fixpoint files_below (n : node) : list (list str * content) :=
  match n with
  | File _ => []
  | Dir es =>
      flat_map (fun e =>
        match snd e with
        | File c => [([fst e], c)]
        | Dir _ => []
        end) es
      ++ flat_map (fun e =>
           match snd e with
           | Dir _ => map (fun rc => (fst e :: fst rc, snd rc))
                        (files_below (snd e))
           | File _ => []
           end) es
  end.

(** [t'] keeps the shape of [t]: what exists in [t] exists in [t'], with
    the same kind. *)
Definition keeps_shape (t t' : node) : Prop :=
  forall q n, lookup t q = Some n ->
  exists n', lookup t' q = Some n' /\ is_dir n' = is_dir n.

(** [t'] is [t], but for the file at [loc]. *)
Definition touched (loc : list str) (t t' : node) : Prop :=
  t' = t \/ exists c, t' = put t loc c.

(** Two worlds with the same tree and the same working directory. *)
Definition agree (w w' : world) : Prop := fs w = fs w' /\ cwd w = cwd w'.

(** A computation whose value and whose effect on the tree depend on the
    tree and the working directory only. *)
Definition stable {A} (m : M A) : Prop :=
  forall w w', agree w w' ->
    fst (m w) = fst (m w') /\ agree (snd (m w)) (snd (m w')).

(** [w'] differs from [w] by output and by calls that do not write. *)
Definition quiet (w w' : world) : Prop :=
  fs w' = fs w /\ cwd w' = cwd w /\
  exists evs, trace w' = trace w ++ evs
              /\ Forall (fun e => is_write e = false) evs.

(** The line printed for a member: [  + <arcname>]. A member made from a
    directory is named with one more slash than its [arcname]. *)
Definition listed (m : zip_entry) (line : str) : Prop :=
  line = lit "  + " ++ fst m \/ line ++ [SLASH] = lit "  + " ++ fst m.

(** The two lines printed between the checks and the archive. *)
Definition announcement (skill_name : str) (output_file : Path) : list str :=
  [CHECK ++ lit " Skill structure validated: " ++ skill_name;
   PACKAGE ++ lit " Creating package: " ++ to_str output_file].

Section Phases.

Variable RT : Runtime.

(** The four checks of [package_skill], on the world of the call. *)
Definition frontmatter_ok (w : world) (skill_md : Path) : bool :=
  match read_text RT (fs w) (cwd w) skill_md with
  | inr content => fst (check_frontmatter content)
  | inl _ => false
  end.

Definition validated (skill_name : str) (source_path : option str)
  (w : world) : bool :=
  fst (validate_skill_name skill_name)
  && present w (source_dir skill_name source_path w)
  && present w (manifest skill_name source_path w)
  && frontmatter_ok w (manifest skill_name source_path w).

(** What [package_skill] does with the open [ZipFile]: the body of the
    [with] block, its exit, and the report. *)
Definition write_archive (source_path output_file : Path) (zipf : ZipFile)
  : M bool :=
  triples <- os_walk source_path ;;
  ' (zipf, raised) <- write_tree RT zipf (parent source_path) triples ;;
  zip_close zipf ;;
  match raised with
  | Some e => print (PackagingError RT e) ;; ret false
  | None =>
      size <- stat_size RT output_file ;;
      match size with
      | inl e => print (PackagingError RT e) ;; ret false
      | inr st_size =>
          print (NL :: CHECK ++ lit " Skill packaged successfully!") ;;
          print (lit "  File: " ++ to_str output_file) ;;
          print (lit "  Size: " ++ fmt_kb RT st_size ++ lit " KB") ;;
          print (NL :: OUTBOX ++ lit " To upload to Claude.ai:") ;;
          print (lit "  1. Go to Settings -> Capabilities") ;;
          print (lit "  2. Click 'Upload Custom Skill'") ;;
          print (lit "  3. Select " ++ name_of output_file) ;;
          print (lit "  4. The skill will be available in future chats") ;;
          ret true
      end
  end.

(** The member that stands for the file reached from the source directory
    by the names [fst rc]: its name starts with the identifier, its data
    are the bytes of the file. *)
Definition member_of (skill_name : str) (rc : list str * content)
  : zip_entry :=
  (join [SLASH] (skill_name :: fst rc), read_bytes RT (snd rc)).

(** The eight lines printed after the archive is closed. *)
Definition report (output_file : Path) (st_size : N) : list str :=
  [NL :: CHECK ++ lit " Skill packaged successfully!";
   lit "  File: " ++ to_str output_file;
   lit "  Size: " ++ fmt_kb RT st_size ++ lit " KB";
   NL :: OUTBOX ++ lit " To upload to Claude.ai:";
   lit "  1. Go to Settings -> Capabilities";
   lit "  2. Click 'Upload Custom Skill'";
   lit "  3. Select " ++ name_of output_file;
   lit "  4. The skill will be available in future chats"].

End Phases.

(* ================================================================== *)
(** * Sample data *)
(* ================================================================== *)

(** A runtime whose archive image only tells complete from incomplete. *)
Definition sample_runtime : Runtime :=
  mkRuntime (fun closed _ => if closed then blit "PK" else blit "P")
            (fun _ => lit "error")
            (fun _ => lit "0.0").

Definition LF : bytes := [Byte.x0a].

(** The manifest [---\nname: x\ndescription: y\n---\n], as text and as
    the bytes of a file. *)
Definition four_lines : str :=
  lit "---" ++ [NL] ++ lit "name: x" ++ [NL]
  ++ lit "description: y" ++ [NL] ++ lit "---" ++ [NL].

Definition four_lines_bytes : bytes :=
  blit "---" ++ LF ++ blit "name: x" ++ LF
  ++ blit "description: y" ++ LF ++ blit "---" ++ LF.

(** A manifest whose only other line is a delimiter between blanks. *)
Definition padded_bytes : bytes := blit "---" ++ LF ++ blit " --- ".

(** A manifest in which a delimiter between blanks comes before the
    description and a bare one after it. *)
Definition early_close : str :=
  lit "---" ++ [NL] ++ lit "name: x" ++ [NL] ++ lit " --- " ++ [NL]
  ++ lit "description: y" ++ [NL] ++ lit "---" ++ [NL].

Definition early_close_bytes : bytes :=
  blit "---" ++ LF ++ blit "name: x" ++ LF ++ blit " --- " ++ LF
  ++ blit "description: y" ++ LF ++ blit "---" ++ LF.

(** [/work/foo] holds [SKILL.md] and [helper.txt]; the working directory
    is [/work]. *)
Definition foo_dir (manifest : bytes) : node :=
  Dir [(lit "SKILL.md", File (Raw manifest));
       (lit "helper.txt", File (Raw (blit "hello")))].

Definition sample_world (manifest : bytes) : world :=
  mkWorld (Dir [(lit "work", Dir [(lit "foo", foo_dir manifest)])])
          [lit "work"] [] [].

Definition foo_manifest : Path :=
  mkPath true [lit "work"; lit "foo"; lit "SKILL.md"].

(** The text with every newline written as carriage return and newline. *)
Fixpoint to_crlf (s : str) : str :=
  match s with
  | [] => []
  | c :: s' => if N.eqb c NL then CR :: NL :: to_crlf s' else c :: to_crlf s'
  end.

(** The manifest of four lines with the line ends of Windows. *)
Definition four_lines_crlf_bytes : bytes :=
  blit "---" ++ [Byte.x0d] ++ LF ++ blit "name: x" ++ [Byte.x0d] ++ LF
  ++ blit "description: y" ++ [Byte.x0d] ++ LF ++ blit "---"
  ++ [Byte.x0d] ++ LF.

(** The manifest of four lines with a remark after the first delimiter
    and a title after the block. *)
Definition decorated : str :=
  lit "--- # skill" ++ [NL] ++ lit "name: x" ++ [NL]
  ++ lit "description: y" ++ [NL] ++ lit "--- " ++ [NL] ++ lit "# Title".

Definition decorated_bytes : bytes :=
  blit "--- # skill" ++ LF ++ blit "name: x" ++ LF
  ++ blit "description: y" ++ LF ++ blit "--- " ++ LF ++ blit "# Title".

(** The source directory of [deep_world]. *)
Definition deep_tree : node :=
  Dir [(lit "docs",
        Dir [(lit "guide.md", File (Raw (blit "read me")));
             (lit "empty", Dir [])]);
       (lit "SKILL.md", File (Raw four_lines_bytes));
       (lit "helper.txt", File (Raw (blit "hello")))].

(** The working directory of the path arguments: the base of the source
    directory and the directory of the output file. *)
Definition base_dir (given : option str) (w : world) : Path :=
  match given with
  | None => mkPath true (cwd w)
  | Some g => parse g
  end.

(** [/work/foo] with a sub-directory [docs] that holds [guide.md] and an
    empty directory [empty]. *)
Definition deep_world : world :=
  mkWorld (Dir [(lit "work", Dir [(lit "foo", deep_tree)])])
          [lit "work"] [] [].

(** [/work/foo] is a regular file. *)
Definition flat_world : world :=
  mkWorld (Dir [(lit "work", Dir [(lit "foo", File (Raw (blit "x")))])])
          [lit "work"] [] [].

(* ================================================================== *)
(** * Facts about the string operations *)
(* ================================================================== *)

Lemma eqb_eq a b : eqb a b = true <-> a = b.
Proof.
  revert b; induction a as [|x a IH]; intros [|y b]; simpl;
    try (split; (discriminate || reflexivity)).
  rewrite andb_true_iff, N.eqb_eq, IH.
  split; [intros [-> ->]; reflexivity | intros H; inversion H; auto].
Qed.

Lemma eqb_refl a : eqb a a = true.
Proof. apply eqb_eq; reflexivity. Qed.

Lemma eqb_neq a b : eqb a b = false <-> a <> b.
Proof. rewrite <- eqb_eq. destruct (eqb a b); split; congruence. Qed.

Lemma eqb_sym a b : eqb a b = eqb b a.
Proof.
  destruct (eqb a b) eqn:E; symmetry.
  - apply eqb_eq in E. subst. apply eqb_refl.
  - apply eqb_neq. apply eqb_neq in E. congruence.
Qed.

Lemma startswith_spec p s : startswith p s = true <-> Prefix p s.
Proof.
  revert s; induction p as [|x p IH]; intros s; simpl.
  - split; [exists s; reflexivity | reflexivity].
  - destruct s as [|y s].
    + split; [discriminate | intros [r H]; discriminate].
    + rewrite andb_true_iff, N.eqb_eq, IH. split.
      * intros [-> [r ->]]. exists r; reflexivity.
      * intros [r H]. inversion H; subst.
        split; [reflexivity | exists r; reflexivity].
Qed.

Lemma contains_spec n s : contains n s = true <-> Substring n s.
Proof.
  induction s as [|c s IH]; simpl.
  - rewrite orb_false_r, startswith_spec. split.
    + intros [r H]. exists [], r. exact H.
    + intros [a [b H]]. destruct a; [exists b; exact H | discriminate].
  - rewrite orb_true_iff, startswith_spec, IH. split.
    + intros [[r H] | [a [b H]]].
      * exists [], r. exact H.
      * exists (c :: a), b. rewrite H. reflexivity.
    + intros [[|x a] [b H]].
      * left. exists b. exact H.
      * right. inversion H. exists a, b. reflexivity.
Qed.

Lemma contains_false n s : contains n s = false <-> ~ Substring n s.
Proof.
  rewrite <- contains_spec. destruct (contains n s); split; congruence.
Qed.

Lemma split_nonempty sep s : split sep s <> [].
Proof.
  destruct s as [|c s]; simpl; [discriminate|].
  destruct (N.eqb c sep); [discriminate|].
  destruct (split sep s); discriminate.
Qed.

(** Splitting and joining on the separator are inverse. *)
Lemma join_split sep s : join [sep] (split sep s) = s.
Proof.
  induction s as [|c s IH]; [reflexivity|].
  pose proof (split_nonempty sep s) as NE.
  cbn [split]. destruct (N.eqb c sep) eqn:E.
  - apply N.eqb_eq in E; subst c.
    destruct (split sep s) as [|l ls]; [congruence|].
    cbn [join] in *. rewrite IH. reflexivity.
  - destruct (split sep s) as [|l ls]; [congruence|].
    destruct ls; cbn [join] in *; rewrite <- IH; reflexivity.
Qed.

(** No piece of a split holds the separator. *)
Lemma split_no_sep sep s l : In l (split sep s) -> ~ In sep l.
Proof.
  revert l; induction s as [|c s IH]; simpl; intros l H.
  - destruct H as [<- | []]. intros [].
  - destruct (N.eqb c sep) eqn:E.
    + destruct H as [<- | H]; [intros [] | apply IH; exact H].
    + destruct (split sep s) as [|l0 ls] eqn:S.
      * destruct H as [<- | []]. intros [-> | []].
        rewrite N.eqb_refl in E. discriminate.
      * destruct H as [<- | H].
        -- intros [-> | H1]; [rewrite N.eqb_refl in E; discriminate|].
           apply (IH l0); [left; reflexivity | exact H1].
        -- apply IH. right. exact H.
Qed.

(** A string without the separator is its own single piece. *)
Lemma split_single sep s : ~ In sep s -> split sep s = [s].
Proof.
  induction s as [|c s IH]; intros H; [reflexivity|].
  cbn [split]. destruct (N.eqb c sep) eqn:E.
  - apply N.eqb_eq in E. subst. exfalso. apply H. left. reflexivity.
  - rewrite IH; [reflexivity|]. intros H1. apply H. right. exact H1.
Qed.

(** [strip()] leaves the delimiter as it is. *)
Lemma strip_delimiter : strip delimiter = delimiter.
Proof. reflexivity. Qed.

(* ================================================================== *)
(** * Facts about validate_skill_name *)
(* ================================================================== *)

Lemma plus_loop_spec cls k s :
  Re.plus_loop cls k s = true <->
  exists p t, s = p ++ t /\ p <> [] /\ forallb cls p = true /\ k t = true.
Proof.
  induction s as [|c s IH]; simpl.
  - split; [discriminate|].
    intros (p & t & E & NE & _). destruct p; [congruence | discriminate].
  - rewrite andb_true_iff, orb_true_iff, IH. split.
    + intros [C [(p & t & -> & NE & A & K) | K]].
      * exists (c :: p), t. simpl. rewrite C, A. repeat split; congruence.
      * exists [c], s. simpl. rewrite C. repeat split; congruence.
    + intros (p & t & E & NE & A & K).
      destruct p as [|x p]; [congruence|].
      simpl in E, A. inversion E; subst. apply andb_true_iff in A as [C A].
      split; [exact C|].
      destruct p as [|y p]; [right; exact K|].
      left. exists (y :: p), t. repeat split; [discriminate | exact A | exact K].
Qed.

Lemma name_class_not_NL : name_class NL = false.
Proof. reflexivity. Qed.

Lemma at_eol_spec t : Re.at_eol t = true <-> t = [] \/ t = [NL].
Proof.
  destruct t as [|c [|d t]]; simpl.
  - split; auto.
  - rewrite N.eqb_eq. split.
    + intros ->. right. reflexivity.
    + intros [H | H]; [discriminate | inversion H; reflexivity].
  - split; [discriminate | intros [H | H]; discriminate].
Qed.

(** The strings that [r'^[a-z0-9-]+$'] matches: the well-formed names, each
    also with one newline after it. *)
Lemma match_name_pattern s :
  Re.match_ name_pattern s = true <->
  exists p, well_formed_name p /\ (s = p \/ s = p ++ [NL]).
Proof.
  unfold Re.match_, name_pattern. cbn [Re.run andb].
  rewrite plus_loop_spec. unfold well_formed_name. split.
  - intros (p & t & -> & NE & A & K).
    rewrite andb_true_r in K. apply at_eol_spec in K.
    exists p. rewrite Forall_forall. rewrite forallb_forall in A.
    split; [split; assumption|].
    destruct K as [-> | ->]; [left; apply app_nil_r | right; reflexivity].
  - intros (p & [NE A] & E). rewrite Forall_forall in A.
    destruct E as [-> | ->].
    + exists p, []. rewrite app_nil_r, forallb_forall. auto.
    + exists p, [NL]. rewrite forallb_forall. auto.
Qed.

Lemma validate_skill_name_true name :
  fst (validate_skill_name name) = true <->
  (exists p, well_formed_name p /\ (name = p \/ name = p ++ [NL]))
  /\ length name <= 64.
Proof.
  unfold validate_skill_name. rewrite <- match_name_pattern.
  destruct (Re.match_ name_pattern name); simpl.
  - destruct (64 <? length name) eqn:L; simpl.
    + apply Nat.ltb_lt in L. split; [discriminate | intros [_ H]; lia].
    + apply Nat.ltb_ge in L. split; auto.
  - split; [discriminate | intros [H _]; discriminate].
Qed.

Lemma validate_skill_name_result name :
  validate_skill_name name = (true, None) \/
  validate_skill_name name = (false, Some InvalidFormat) \/
  validate_skill_name name = (false, Some TooLong).
Proof.
  unfold validate_skill_name.
  destruct (Re.match_ name_pattern name); simpl; auto.
  destruct (64 <? length name); auto.
Qed.

(** The half of the promise that holds: a well-formed name of at most 64
    characters is accepted. *)
Lemma validate_skill_name_complete name :
  well_formed_name name -> length name <= 64 ->
  validate_skill_name name = (true, None).
Proof.
  intros WF L.
  assert (H : fst (validate_skill_name name) = true).
  { apply validate_skill_name_true. split; [exists name; auto | exact L]. }
  destruct (validate_skill_name_result name) as [E | [E | E]];
    rewrite E in H; [exact E | discriminate | discriminate].
Qed.

(** A string whose characters are not all in the class is rejected, unless
    the only foreign character is a newline at its end. *)
Lemma validate_skill_name_sound name :
  fst (validate_skill_name name) = true ->
  well_formed_name name \/
  exists p, well_formed_name p /\ name = p ++ [NL].
Proof.
  intros H. apply validate_skill_name_true in H as [(p & WF & [-> | ->]) _].
  - left. exact WF.
  - right. exists p. auto.
Qed.

(** An accepted name holds no slash and is neither empty nor a dot. *)
Lemma valid_name_chars name :
  fst (validate_skill_name name) = true ->
  name <> [] /\ ~ In SLASH name /\ ~ In DOT name.
Proof.
  intros H. apply validate_skill_name_true in H as [(p & [NE A] & E) _].
  rewrite Forall_forall in A.
  assert (P : ~ In SLASH p /\ ~ In DOT p).
  { split; intros I; apply A in I; discriminate. }
  destruct P as [P1 P2]. destruct E as [-> | ->].
  - auto.
  - repeat split.
    + destruct p; discriminate.
    + rewrite in_app_iff. intros [I | [I | []]]; [auto | discriminate].
    + rewrite in_app_iff. intros [I | [I | []]]; [auto | discriminate].
Qed.

(* ================================================================== *)
(** * Facts about validate_frontmatter *)
(* ================================================================== *)

Lemma neq_by_eqb a b : eqb a b = false -> a <> b.
Proof. apply eqb_neq. Qed.

Lemma outcome_message (x y : bool) (a b : str) :
  (x, Some a) = (y, Some b) -> a = b.
Proof. intros H. inversion H. reflexivity. Qed.

(** Two messages that differ cannot be the outcome of one run. *)
Ltac clash :=
  match goal with
  | H : (_, Some ?a) = (_, Some ?b) |- _ =>
      exfalso; apply outcome_message in H; revert H;
      apply neq_by_eqb; vm_compute; reflexivity
  | H : (true, _) = (false, _) |- _ => discriminate H
  | H : (false, _) = (true, _) |- _ => discriminate H
  end.

Lemma find_end_bounds lines i :
  find_end lines i = (-1)%Z \/ (i <= find_end lines i)%Z.
Proof.
  revert i; induction lines as [|l ls IH]; intros i; simpl; [auto|].
  destruct (eqb (strip l) delimiter); [right; lia|].
  destruct (IH (i + 1)%Z); [auto | right; lia].
Qed.

Lemma find_end_none lines i :
  (0 <= i)%Z -> (find_end lines i = (-1)%Z <-> no_closing lines).
Proof.
  unfold no_closing.
  revert i; induction lines as [|l ls IH]; intros i Hi; simpl.
  - split; [intros _ line [] | reflexivity].
  - destruct (eqb (strip l) delimiter) eqn:E.
    + apply eqb_eq in E. split; [lia|].
      intros H. exfalso. apply (H l); auto.
    + apply eqb_neq in E. rewrite IH by lia. split.
      * intros H line [<- | I]; auto.
      * intros H line I. apply H. auto.
Qed.

Lemma find_end_closing body closing rest i :
  no_closing body -> strip closing = delimiter ->
  find_end (body ++ closing :: rest) i = (i + Z.of_nat (length body))%Z.
Proof.
  unfold no_closing.
  revert i; induction body as [|l ls IH]; intros i NB C; simpl.
  - rewrite C. simpl. lia.
  - assert (E : eqb (strip l) delimiter = false).
    { apply eqb_neq. apply NB. left. reflexivity. }
    rewrite E, IH; [lia | | exact C].
    intros line I. apply NB. right. exact I.
Qed.

Lemma slice_body (first : str) body closing rest :
  slice (first :: body ++ closing :: rest) 1
    (1 + Z.of_nat (length body)) = body.
Proof.
  unfold slice.
  replace (Z.to_nat (1 + Z.of_nat (length body))) with (S (length body)) by lia.
  change (Z.to_nat 1) with 1. cbn [firstn skipn].
  rewrite firstn_app, Nat.sub_diag, firstn_all. simpl. apply app_nil_r.
Qed.

Section FrontmatterFacts.

Variable RT : Runtime.

Lemma validate_frontmatter_read p w content :
  read_text RT (fs w) (cwd w) p = inr content ->
  validate_frontmatter RT p w = (check_frontmatter content, log (OpenRead p) w).
Proof.
  intros H. unfold validate_frontmatter, bind, open_read_text.
  rewrite H. reflexivity.
Qed.

Lemma validate_frontmatter_unreadable p w e :
  read_text RT (fs w) (cwd w) p = inl e ->
  validate_frontmatter RT p w =
  ((false, Some (lit "Error reading SKILL.md: " ++ exn_str RT e)),
   log (OpenRead p) w).
Proof.
  intros H. unfold validate_frontmatter, bind, open_read_text.
  rewrite H. reflexivity.
Qed.

(** Validation reads and never writes. *)
Lemma validate_frontmatter_world p w :
  snd (validate_frontmatter RT p w) = log (OpenRead p) w.
Proof.
  unfold validate_frontmatter, bind, open_read_text.
  destruct (read_text RT (fs w) (cwd w) p); reflexivity.
Qed.

Lemma check_frontmatter_start content :
  check_frontmatter content = (false, Some MissingStart) <->
  ~ Prefix delimiter content.
Proof.
  rewrite <- startswith_spec. unfold check_frontmatter.
  destruct (startswith delimiter content); simpl.
  - split; [|congruence]. intros H.
    destruct (find_end _ _ =? -1)%Z; cbn [negb] in H; [clash|].
    destruct (contains (lit "name:") _); cbn [negb] in H; [|clash].
    destruct (contains (lit "description:") _); cbn [negb] in H; clash.
  - split; [discriminate | reflexivity].
Qed.

Lemma check_frontmatter_end content :
  Prefix delimiter content ->
  (check_frontmatter content = (false, Some MissingEnd) <->
   no_closing (tl (split NL content))).
Proof.
  intros P. apply startswith_spec in P.
  rewrite <- (find_end_none (tl (split NL content)) 1) by lia.
  unfold check_frontmatter. rewrite P. simpl.
  destruct (find_end _ _ =? -1)%Z eqn:E.
  - apply Z.eqb_eq in E. split; auto.
  - apply Z.eqb_neq in E. split; [|congruence]. intros H.
    destruct (contains (lit "name:") _); cbn [negb] in H; [|clash].
    destruct (contains (lit "description:") _); cbn [negb] in H; clash.
Qed.

Lemma check_frontmatter_fields content first body closing rest :
  Prefix delimiter content ->
  split NL content = first :: body ++ closing :: rest ->
  no_closing body -> strip closing = delimiter ->
  check_frontmatter content =
  if negb (contains (lit "name:") (join [NL] body)) then
    (false, Some MissingName)
  else if negb (contains (lit "description:") (join [NL] body)) then
    (false, Some MissingDescription)
  else (true, None).
Proof.
  intros P S NB C. apply startswith_spec in P.
  unfold check_frontmatter. rewrite P, S. cbn [negb tl].
  rewrite find_end_closing by assumption.
  rewrite slice_body.
  destruct (1 + Z.of_nat (length body) =? -1)%Z eqn:E; [|reflexivity].
  apply Z.eqb_eq in E. lia.
Qed.

(** C5. For every readable file, [validate_frontmatter] fails with the
    "must start with YAML frontmatter" message exactly when the text read
    does not begin with the three characters [---]. *)
Theorem missing_start_iff p w content :
  read_text RT (fs w) (cwd w) p = inr content ->
  (fst (validate_frontmatter RT p w) = (false, Some MissingStart) <->
   ~ Prefix delimiter content).
Proof.
  intros R. rewrite (validate_frontmatter_read _ _ _ R). simpl.
  apply check_frontmatter_start.
Qed.

(** C3, as the code has it. For every readable file whose text begins with
    [---], [validate_frontmatter] fails with the "must end with ---" message
    exactly when no line after the first equals [---] once leading and
    trailing white space is stripped from it; and whenever it fails so, no
    later line consists of [---] alone. *)
Theorem missing_end_iff p w content :
  read_text RT (fs w) (cwd w) p = inr content ->
  Prefix delimiter content ->
  (fst (validate_frontmatter RT p w) = (false, Some MissingEnd) <->
   forall line, In line (tl (split NL content)) -> strip line <> delimiter)
  /\ (fst (validate_frontmatter RT p w) = (false, Some MissingEnd) ->
      forall line, In line (tl (split NL content)) -> line <> delimiter).
Proof.
  intros R P. rewrite (validate_frontmatter_read _ _ _ R). simpl.
  pose proof (check_frontmatter_end _ P) as E. split; [exact E|].
  intros H line I ->. apply E in H. apply (H delimiter I). reflexivity.
Qed.


End FrontmatterFacts.

(* ================================================================== *)
(** * Facts about package_skill: the validation steps *)
(* ================================================================== *)

Ltac run_step :=
  cbn [fst snd fs cwd stdout trace log set_fs bind ret path_cwd exists_
       print negb].

Ltac quiet_by evs :=
  split; [reflexivity | split; [reflexivity |
    exists evs; split;
      [cbn [trace log]; rewrite <- ?app_assoc; reflexivity
      | repeat constructor]]].

Section ValidationSteps.

Variable RT : Runtime.
Variables (skill_name : str) (source_path output_path : option str).
Variable w : world.

Let sd := source_dir skill_name source_path w.
Let md := manifest skill_name source_path w.
Let out := output_file skill_name output_path w.

Lemma package_skill_bad_name :
  fst (validate_skill_name skill_name) = false ->
  package_skill RT skill_name source_path output_path w =
  (false,
   mkWorld (fs w) (cwd w)
     (stdout w
      ++ [CROSS ++ lit " Error: "
          ++ fmt_opt (snd (validate_skill_name skill_name))])
     (trace w)).
Proof.
  intros H. unfold package_skill.
  destruct (validate_skill_name skill_name) as [valid error].
  simpl in H. subst valid. reflexivity.
Qed.

(** The script up to its first test of the file system. *)
Ltac enter V :=
  unfold package_skill;
  destruct (validate_skill_name skill_name) as [valid error];
  simpl in V; subst valid;
  subst sd md out; unfold present, frontmatter_ok, manifest, output_file,
    source_dir in *;
  destruct source_path as [given|]; run_step.

Ltac pass H :=
  match type of H with
  | match ?x with _ => _ end = _ =>
      destruct x eqn:?; [discriminate H|]; run_step
  end.

Ltac fail_ H :=
  match type of H with
  | match ?x with _ => _ end = _ =>
      destruct x eqn:?; [|discriminate H]; run_step
  end.

Lemma package_skill_no_directory :
  fst (validate_skill_name skill_name) = true ->
  present w sd = false ->
  exists w', package_skill RT skill_name source_path output_path w = (false, w')
    /\ quiet w w' /\ stdout w' = stdout w ++ [DirectoryNotFound sd].
Proof.
  intros V D. enter V; fail_ D;
    (eexists; split; [reflexivity|]; split; [|reflexivity]).
  - quiet_by [Stat (joinpath (parse given) skill_name)].
  - quiet_by [Getcwd; Stat (joinpath (mkPath true (cwd w)) skill_name)].
Qed.

Lemma package_skill_no_manifest :
  fst (validate_skill_name skill_name) = true ->
  present w sd = true ->
  present w md = false ->
  exists w', package_skill RT skill_name source_path output_path w = (false, w')
    /\ quiet w w' /\ stdout w' = stdout w ++ [ManifestNotFound sd].
Proof.
  intros V D S. enter V; pass D; fail_ S;
    (eexists; split; [reflexivity|]; split; [|reflexivity]).
  - quiet_by [Stat (joinpath (parse given) skill_name);
              Stat (joinpath (joinpath (parse given) skill_name)
                      (lit "SKILL.md"))].
  - quiet_by [Getcwd; Stat (joinpath (mkPath true (cwd w)) skill_name);
              Stat (joinpath (joinpath (mkPath true (cwd w)) skill_name)
                      (lit "SKILL.md"))].
Qed.

Lemma package_skill_bad_frontmatter :
  fst (validate_skill_name skill_name) = true ->
  present w sd = true ->
  present w md = true ->
  frontmatter_ok RT w md = false ->
  exists w', package_skill RT skill_name source_path output_path w = (false, w')
    /\ quiet w w'.
Proof.
  intros V D S F. enter V; pass D; pass S.
  - destruct (read_text RT (fs w) (cwd w) _) as [e|content] eqn:E.
    + unfold bind at 1.
      erewrite validate_frontmatter_unreadable by exact E. run_step.
      eexists; split; [reflexivity|].
      quiet_by [Stat (joinpath (parse given) skill_name);
                Stat (joinpath (joinpath (parse given) skill_name)
                        (lit "SKILL.md"));
                OpenRead (joinpath (joinpath (parse given) skill_name)
                        (lit "SKILL.md"))].
    + unfold bind at 1.
      erewrite validate_frontmatter_read by exact E.
      destruct (check_frontmatter content) as [ok msg].
      simpl in F. subst ok. run_step.
      eexists; split; [reflexivity|].
      quiet_by [Stat (joinpath (parse given) skill_name);
                Stat (joinpath (joinpath (parse given) skill_name)
                        (lit "SKILL.md"));
                OpenRead (joinpath (joinpath (parse given) skill_name)
                        (lit "SKILL.md"))].
  - destruct (read_text RT (fs w) (cwd w) _) as [e|content] eqn:E.
    + unfold bind at 1.
      erewrite validate_frontmatter_unreadable by exact E. run_step.
      eexists; split; [reflexivity|].
      quiet_by [Getcwd; Stat (joinpath (mkPath true (cwd w)) skill_name);
                Stat (joinpath (joinpath (mkPath true (cwd w)) skill_name)
                        (lit "SKILL.md"));
                OpenRead (joinpath (joinpath (mkPath true (cwd w)) skill_name)
                        (lit "SKILL.md"))].
    + unfold bind at 1.
      erewrite validate_frontmatter_read by exact E.
      destruct (check_frontmatter content) as [ok msg].
      simpl in F. subst ok. run_step.
      eexists; split; [reflexivity|].
      quiet_by [Getcwd; Stat (joinpath (mkPath true (cwd w)) skill_name);
                Stat (joinpath (joinpath (mkPath true (cwd w)) skill_name)
                        (lit "SKILL.md"));
                OpenRead (joinpath (joinpath (mkPath true (cwd w)) skill_name)
                        (lit "SKILL.md"))].
Qed.

Lemma validated_parts :
  validated RT skill_name source_path w = true <->
  fst (validate_skill_name skill_name) = true /\ present w sd = true
  /\ present w md = true /\ frontmatter_ok RT w md = true.
Proof.
  unfold validated. rewrite !andb_true_iff. subst sd md. tauto.
Qed.

(** Once the four checks have passed, what is left is to open the archive
    and to fill it. *)
Lemma package_skill_validated :
  validated RT skill_name source_path w = true ->
  exists w0, quiet w w0 /\
    package_skill RT skill_name source_path output_path w =
    (opened <- zip_open out ;;
     match opened with
     | inl e => print (PackagingError RT e) ;; ret false
     | inr zipf => write_archive RT sd out zipf
     end) w0.
Proof.
  intros H. apply validated_parts in H as (V & D & S & F).
  enter V; pass D; pass S;
    unfold bind at 1;
    (destruct (read_text RT (fs w) (cwd w) _) as [e|content] eqn:E;
     [discriminate F|]);
    (erewrite validate_frontmatter_read by exact E);
    destruct (check_frontmatter content) as [ok msg];
    simpl in F; subst ok; run_step;
    destruct output_path as [to|]; run_step;
    (eexists; split; [|reflexivity]).
  - quiet_by [Stat (joinpath (parse given) skill_name);
              Stat (joinpath (joinpath (parse given) skill_name)
                      (lit "SKILL.md"));
              OpenRead (joinpath (joinpath (parse given) skill_name)
                      (lit "SKILL.md"))].
  - quiet_by [Stat (joinpath (parse given) skill_name);
              Stat (joinpath (joinpath (parse given) skill_name)
                      (lit "SKILL.md"));
              OpenRead (joinpath (joinpath (parse given) skill_name)
                      (lit "SKILL.md")); Getcwd].
  - quiet_by [Getcwd; Stat (joinpath (mkPath true (cwd w)) skill_name);
              Stat (joinpath (joinpath (mkPath true (cwd w)) skill_name)
                      (lit "SKILL.md"));
              OpenRead (joinpath (joinpath (mkPath true (cwd w)) skill_name)
                      (lit "SKILL.md"))].
  - quiet_by [Getcwd; Stat (joinpath (mkPath true (cwd w)) skill_name);
              Stat (joinpath (joinpath (mkPath true (cwd w)) skill_name)
                      (lit "SKILL.md"));
              OpenRead (joinpath (joinpath (mkPath true (cwd w)) skill_name)
                      (lit "SKILL.md")); Getcwd].
Qed.

(** The same step, with what it has printed. *)
Lemma package_skill_announced :
  validated RT skill_name source_path w = true ->
  exists w0, (quiet w w0 /\ stdout w0 = stdout w ++ announcement skill_name out) /\
    package_skill RT skill_name source_path output_path w =
    (opened <- zip_open out ;;
     match opened with
     | inl e => print (PackagingError RT e) ;; ret false
     | inr zipf => write_archive RT sd out zipf
     end) w0.
Proof.
  intros H. apply validated_parts in H as (V & D & S & F).
  unfold announcement.
  enter V; pass D; pass S;
    unfold bind at 1;
    (destruct (read_text RT (fs w) (cwd w) _) as [e|content] eqn:E;
     [discriminate F|]);
    (erewrite validate_frontmatter_read by exact E);
    destruct (check_frontmatter content) as [ok msg];
    simpl in F; subst ok; run_step;
    destruct output_path as [to|]; run_step;
    (eexists; split; [|reflexivity]);
    (split; [|cbn [stdout]; rewrite <- ?app_assoc; reflexivity]).
  - quiet_by [Stat (joinpath (parse given) skill_name);
              Stat (joinpath (joinpath (parse given) skill_name)
                      (lit "SKILL.md"));
              OpenRead (joinpath (joinpath (parse given) skill_name)
                      (lit "SKILL.md"))].
  - quiet_by [Stat (joinpath (parse given) skill_name);
              Stat (joinpath (joinpath (parse given) skill_name)
                      (lit "SKILL.md"));
              OpenRead (joinpath (joinpath (parse given) skill_name)
                      (lit "SKILL.md")); Getcwd].
  - quiet_by [Getcwd; Stat (joinpath (mkPath true (cwd w)) skill_name);
              Stat (joinpath (joinpath (mkPath true (cwd w)) skill_name)
                      (lit "SKILL.md"));
              OpenRead (joinpath (joinpath (mkPath true (cwd w)) skill_name)
                      (lit "SKILL.md"))].
  - quiet_by [Getcwd; Stat (joinpath (mkPath true (cwd w)) skill_name);
              Stat (joinpath (joinpath (mkPath true (cwd w)) skill_name)
                      (lit "SKILL.md"));
              OpenRead (joinpath (joinpath (mkPath true (cwd w)) skill_name)
                      (lit "SKILL.md")); Getcwd].
Qed.

(** What is printed when the frontmatter is rejected. *)
Lemma package_skill_frontmatter_message :
  fst (validate_skill_name skill_name) = true ->
  present w sd = true ->
  present w md = true ->
  fst (fst (validate_frontmatter RT md w)) = false ->
  exists w', package_skill RT skill_name source_path output_path w = (false, w')
    /\ stdout w' = stdout w
         ++ [CROSS ++ lit " Error: "
             ++ fmt_opt (snd (fst (validate_frontmatter RT md w)))].
Proof.
  intros V D S F. enter V; pass D; pass S;
    unfold bind at 1;
    match type of F with
    | context [validate_frontmatter RT ?p w] =>
        destruct (read_text RT (fs w) (cwd w) p) as [e|content] eqn:E;
        [ rewrite (validate_frontmatter_unreadable RT p w e E);
          erewrite validate_frontmatter_unreadable by exact E
        | rewrite (validate_frontmatter_read RT p w content E) in F |- *;
          erewrite validate_frontmatter_read by exact E;
          cbn [fst snd] in F |- *;
          destruct (check_frontmatter content) as [ok msg];
          cbn [fst] in F; subst ok ]
    end;
    run_step; eexists; split; reflexivity.
Qed.

End ValidationSteps.

(* ================================================================== *)
(** * Facts about the file system *)
(* ================================================================== *)

Lemma assoc_update_same f missing k es :
  assoc k (update_entry f missing k es) =
  match assoc k es with
  | Some m => Some (f m)
  | None => assoc k missing
  end.
Proof.
  induction es as [|[k' m] es IH]; simpl; [reflexivity|].
  destruct (eqb k' k) eqn:E; simpl; rewrite E; [reflexivity | exact IH].
Qed.

Lemma assoc_update_other f missing k k' es :
  eqb k k' = false -> assoc k' missing = None ->
  assoc k' (update_entry f missing k es) = assoc k' es.
Proof.
  intros N M. induction es as [|[k0 m] es IH]; simpl; [exact M|].
  destruct (eqb k0 k) eqn:E; simpl.
  - apply eqb_eq in E. subst k0. rewrite N. reflexivity.
  - rewrite IH. reflexivity.
Qed.

Lemma assoc_missing_other k k' (c : content) (loc : list str) :
  eqb k k' = false ->
  assoc k' match loc with [] => [(k, File c)] | _ :: _ => [] end = None.
Proof. intros N. destruct loc; simpl; [rewrite N|]; reflexivity. Qed.

(** Storing a file where no directory stands keeps every node that was
    there: directories stay directories, and files other than the one
    stored keep their content. *)
Lemma put_preserves loc c : forall t,
  (forall es, lookup t loc <> Some (Dir es)) ->
  forall q n, lookup t q = Some n ->
  exists n', lookup (put t loc c) q = Some n' /\ is_dir n' = is_dir n
             /\ (q <> loc -> is_dir n = false -> n' = n).
Proof.
  induction loc as [|k r IH]; intros t ND q n L.
  - destruct t as [c0|es]; [|exfalso; apply (ND es); reflexivity].
    destruct q as [|k' q']; [|discriminate L].
    simpl in L. inversion L; subst n. exists (File c).
    split; [reflexivity|]. split; [reflexivity|]. congruence.
  - destruct t as [c0|es]; [exists n; auto|].
    destruct q as [|k' q'].
    + simpl in L. inversion L; subst n. eexists. split; [reflexivity|].
      split; [reflexivity | discriminate].
    + cbn [lookup put] in *. destruct (eqb k k') eqn:E.
      * apply eqb_eq in E. subst k'. rewrite assoc_update_same.
        destruct (assoc k es) as [m|]; [|discriminate L].
        destruct (IH m ND q' n L) as (n' & L' & K & F).
        exists n'. split; [exact L'|]. split; [exact K|].
        intros NE. apply F. congruence.
      * rewrite assoc_update_other;
          [|exact E | apply assoc_missing_other; exact E].
        exists n. auto.
Qed.

(** The file stored is found where it was stored, if its directory exists. *)
Lemma lookup_put_same k c : forall d t es,
  lookup t d = Some (Dir es) ->
  lookup (put t (d ++ [k]) c) (d ++ [k]) = Some (File c).
Proof.
  induction d as [|k0 d IH]; intros t es L.
  - simpl in L. inversion L; subst t. cbn [app put lookup].
    rewrite assoc_update_same.
    destruct (assoc k es); [reflexivity|].
    simpl. rewrite eqb_refl. reflexivity.
  - destruct t as [c0|es0]; [discriminate L|].
    cbn [app put lookup] in *. rewrite assoc_update_same.
    destruct (assoc k0 es0) as [m|]; [|discriminate L].
    apply (IH m es L).
Qed.

(** Storing twice at one place is storing the second content. *)
Lemma put_put c c' : forall loc t,
  put (put t loc c) loc c' = put t loc c'.
Proof.
  induction loc as [|k r IH]; intros t; [reflexivity|].
  destruct t as [c0|es]; [reflexivity|]. cbn [put]. f_equal.
  induction es as [|[k' m] es IHes]; simpl.
  - destruct r; simpl; [rewrite eqb_refl|]; reflexivity.
  - destruct (eqb k' k) eqn:E; simpl; rewrite E.
    + rewrite IH. reflexivity.
    + rewrite IHes. reflexivity.
Qed.

Lemma resolve_keeps t t' comps : keeps_shape t t' ->
  forall cur loc, resolve t cur comps = inr loc ->
  resolve t' cur comps = inr loc.
Proof.
  intros K. induction comps as [|c comps IH]; intros cur loc R; simpl in *.
  - destruct (lookup t cur) as [n|] eqn:L; [|discriminate R].
    destruct (K _ _ L) as (n' & -> & _). exact R.
  - destruct (lookup t cur) as [[c0|es]|] eqn:L; try discriminate R.
    destruct (K _ _ L) as (n' & -> & D). destruct n'; [discriminate D|].
    destruct (eqb c DOTDOT); apply IH; exact R.
Qed.

Lemma resolve_app t a : forall b cur,
  resolve t cur (a ++ b) =
  match resolve t cur a with
  | inl e => inl e
  | inr loc => resolve t loc b
  end.
Proof.
  induction a as [|c a IH]; intros b cur; simpl.
  - destruct (lookup t cur) as [n|] eqn:L; [reflexivity|].
    destruct b; simpl; rewrite L; reflexivity.
  - destruct (lookup t cur) as [[c0|es]|]; try reflexivity.
    destruct (eqb c DOTDOT); apply IH.
Qed.

(** A path that ends in a plain name resolves to a location that ends in
    that name. *)
Lemma resolve_last t cur comps k loc :
  eqb k DOTDOT = false ->
  resolve t cur (comps ++ [k]) = inr loc ->
  exists d es, resolve t cur comps = inr d /\ lookup t d = Some (Dir es)
               /\ loc = d ++ [k].
Proof.
  intros N R. rewrite resolve_app in R.
  destruct (resolve t cur comps) as [e|d]; [discriminate R|].
  simpl in R. destruct (lookup t d) as [[c0|es]|] eqn:L; try discriminate R.
  rewrite N in R. destruct (lookup t (d ++ [k])); [|discriminate R].
  exists d, es. inversion R. auto.
Qed.

(** What a successful [create_at] has checked. *)
Lemma create_at_inr t wd p loc :
  create_at t wd p = inr loc ->
  exists d es,
    parts p = removelast (parts p) ++ [name_of p]
    /\ resolve t (origin wd p) (removelast (parts p)) = inr d
    /\ lookup t d = Some (Dir es)
    /\ eqb (name_of p) DOTDOT = false
    /\ (forall es', lookup t loc <> Some (Dir es'))
    /\ loc = d ++ [name_of p].
Proof.
  unfold create_at. intros H.
  destruct (parts p) as [|x xs] eqn:P; [discriminate H|].
  destruct (resolve t (origin wd p) (removelast (x :: xs))) as [e|d] eqn:R;
    [discriminate H|].
  destruct (lookup t d) as [[c0|es]|] eqn:L; try discriminate H.
  destruct (eqb (name_of p) DOTDOT) eqn:N; [discriminate H|].
  assert (E : loc = d ++ [name_of p]).
  { destruct (lookup t (d ++ [name_of p])) as [[?|?]|];
      inversion H; reflexivity. }
  subst loc. exists d, es.
  split.
  { unfold name_of. rewrite P. apply app_removelast_last. discriminate. }
  do 3 (split; [first [reflexivity | assumption]|]).
  split; [|reflexivity].
  intros es' L'. rewrite L' in H. discriminate H.
Qed.

Lemma put_keeps_shape t loc c :
  (forall es, lookup t loc <> Some (Dir es)) -> keeps_shape t (put t loc c).
Proof.
  intros ND q n L.
  destruct (put_preserves loc c t ND q n L) as (n' & L' & K & _).
  exists n'. auto.
Qed.

Section Created.

Variables (t : node) (wd : list str) (p : Path) (loc : list str).
Hypothesis created : create_at t wd p = inr loc.
Variable c : content.

(** The file just created is found under its path. *)
Lemma stat_created : stat (put t loc c) wd p = inr (File c).
Proof.
  destruct (create_at_inr _ _ _ _ created) as (d & es & P & R & L & N & ND & ->).
  pose proof (put_keeps_shape t (d ++ [name_of p]) c ND) as K.
  unfold stat, locate. rewrite P, resolve_app.
  rewrite (resolve_keeps _ _ _ K _ _ R). simpl.
  destruct (K _ _ L) as (n' & -> & D). destruct n'; [discriminate D|].
  rewrite N. rewrite (lookup_put_same _ _ _ _ _ L).
  cbv beta iota. rewrite (lookup_put_same _ _ _ _ _ L). reflexivity.
Qed.

(** Creating it again finds the same place. *)
Lemma create_at_again : create_at (put t loc c) wd p = inr loc.
Proof.
  destruct (create_at_inr _ _ _ _ created) as (d & es & P & R & L & N & ND & ->).
  pose proof (put_keeps_shape t (d ++ [name_of p]) c ND) as K.
  unfold create_at.
  rewrite (resolve_keeps _ _ _ K _ _ R).
  destruct (K _ _ L) as (n' & -> & D). destruct n'; [discriminate D|].
  rewrite N. rewrite (lookup_put_same _ _ _ _ _ L).
  destruct (parts p); [discriminate P | reflexivity].
Qed.

(** Every other path still leads where it led, to the same kind of node,
    and to the same file. *)
Lemma stat_after_create q n :
  stat t wd q = inr n ->
  exists n', stat (put t loc c) wd q = inr n' /\ is_dir n' = is_dir n
    /\ (locate t wd q <> inr loc -> is_dir n = false -> n' = n).
Proof.
  destruct (create_at_inr _ _ _ _ created) as (d & es & P & R & L & N & ND & ->).
  pose proof (put_keeps_shape t (d ++ [name_of p]) c ND) as K.
  unfold stat, locate. intros S.
  destruct (resolve t (origin wd q) (parts q)) as [e|l] eqn:Q; [discriminate S|].
  rewrite (resolve_keeps _ _ _ K _ _ Q).
  destruct (lookup t l) as [m|] eqn:M; [|discriminate S].
  inversion S; subst m.
  destruct (put_preserves (d ++ [name_of p]) c t ND l n M) as (n' & -> & D & F).
  exists n'. repeat split; [exact D|].
  intros NE. apply F. congruence.
Qed.

End Created.

(* ================================================================== *)
(** * Facts about paths *)
(* ================================================================== *)

Lemma parse_single s :
  s <> [] -> ~ In SLASH s -> s <> [DOT] -> parse s = mkPath false [s].
Proof.
  intros NE NS ND. unfold parse. rewrite (split_single _ _ NS).
  destruct s as [|c s]; [congruence|].
  assert (C : N.eqb SLASH c = false).
  { apply N.eqb_neq. intros <-. apply NS. left. reflexivity. }
  apply eqb_neq in ND. unfold filter, keep_part.
  rewrite ND. cbn [startswith eqb negb andb]. rewrite C. reflexivity.
Qed.

Lemma joinpath_single p s :
  s <> [] -> ~ In SLASH s -> s <> [DOT] ->
  joinpath p s = mkPath (absolute p) (parts p ++ [s]).
Proof.
  intros NE NS ND. unfold joinpath. rewrite (parse_single s NE NS ND).
  reflexivity.
Qed.

Lemma joinpath_manifest p :
  joinpath p (lit "SKILL.md") = mkPath (absolute p) (parts p ++ [lit "SKILL.md"]).
Proof. reflexivity. Qed.

(** The output file of an accepted name ends in [<name>.skill]. *)
Lemma joinpath_skill p name :
  fst (validate_skill_name name) = true ->
  joinpath p (name ++ lit ".skill") =
  mkPath (absolute p) (parts p ++ [name ++ lit ".skill"]).
Proof.
  intros V. destruct (valid_name_chars _ V) as (NE & NS & ND).
  unfold joinpath, parse. rewrite split_single.
  - destruct name as [|c name]; [congruence|].
    assert (C : N.eqb SLASH c = false).
    { apply N.eqb_neq. intros <-. apply NS. left. reflexivity. }
    assert (D : N.eqb c DOT = false).
    { apply N.eqb_neq. intros ->. apply ND. left. reflexivity. }
    cbn [app startswith filter keep_part eqb negb andb].
    rewrite C, D. reflexivity.
  - rewrite in_app_iff. intros [I | I]; [auto|].
    vm_compute in I. intuition discriminate.
Qed.

Lemma skill_is_not_manifest name : name ++ lit ".skill" <> lit "SKILL.md".
Proof.
  intros H. apply (f_equal (@rev char)) in H.
  rewrite rev_app_distr in H.
  change (rev (lit ".skill")) with (108 :: rev (lit ".skil"))%N in H.
  change (rev (lit "SKILL.md")) with (100 :: rev (lit "SKILL.m"))%N in H.
  discriminate H.
Qed.

(* ================================================================== *)
(** * Facts about the monad: what depends on the tree only *)
(* ================================================================== *)

Lemma agree_refl w : agree w w.
Proof. split; reflexivity. Qed.

Lemma stable_ret {A} (a : A) : stable (ret a).
Proof. intros w w' H. split; [reflexivity | exact H]. Qed.

Lemma stable_bind {A B} (m : M A) (k : A -> M B) :
  stable m -> (forall a, stable (k a)) -> stable (bind m k).
Proof.
  intros Hm Hk w w' H. unfold bind.
  destruct (Hm w w' H) as [E G].
  destruct (m w) as [a w1], (m w') as [a' w1']. simpl in E, G. subst a'.
  apply Hk. exact G.
Qed.

Ltac by_agreement :=
  let w := fresh "w" in let w' := fresh "w'" in
  let F := fresh "F" in let C := fresh "C" in
  intros w w' [F C]; cbv beta delta [agree]; simpl; rewrite ?F, ?C;
  repeat match goal with
         | |- context [match ?x with _ => _ end] => destruct x
         end;
  simpl; rewrite ?F, ?C; auto.

Lemma stable_print s : stable (print s).
Proof. by_agreement. Qed.

Lemma stable_path_cwd : stable path_cwd.
Proof. by_agreement. Qed.

Lemma stable_exists p : stable (exists_ p).
Proof. by_agreement. Qed.

Section Stable.

Variable RT : Runtime.

Lemma stable_open_read_text p : stable (open_read_text RT p).
Proof. unfold open_read_text. by_agreement. Qed.

Lemma stable_zip_open p : stable (zip_open p).
Proof. unfold zip_open. by_agreement. Qed.

Lemma stable_os_walk p : stable (os_walk p).
Proof. unfold os_walk. by_agreement. Qed.

Lemma stable_zip_write zipf file_path arcname :
  stable (zip_write RT zipf file_path arcname).
Proof. unfold zip_write. by_agreement. Qed.

Lemma stable_zip_close zipf : stable (zip_close zipf).
Proof. unfold zip_close. by_agreement. Qed.

Lemma stable_stat_size p : stable (stat_size RT p).
Proof. unfold stat_size. by_agreement. Qed.

Ltac stable_steps :=
  repeat first
    [ apply stable_ret
    | apply stable_print | apply stable_path_cwd | apply stable_exists
    | apply stable_open_read_text | apply stable_zip_open
    | apply stable_os_walk | apply stable_zip_write | apply stable_zip_close
    | apply stable_stat_size
    | apply stable_bind; [|intros ?]
    | match goal with
      | |- stable (match ?x with _ => _ end) => destruct x
      | |- stable (if ?x then _ else _) => destruct x
      | |- stable (let (_, _) := ?x in _) => destruct x
      end ].

Lemma stable_validate_frontmatter p : stable (validate_frontmatter RT p).
Proof. unfold validate_frontmatter. stable_steps. Qed.

Lemma stable_write_files root source_parent files :
  forall zipf, stable (write_files RT zipf root source_parent files).
Proof.
  induction files as [|file files IH]; intros zipf; cbn [write_files].
  - apply stable_ret.
  - stable_steps. apply IH.
Qed.

Lemma stable_write_tree source_parent triples :
  forall zipf, stable (write_tree RT zipf source_parent triples).
Proof.
  induction triples as [|[[root dirs] files] triples IH]; intros zipf;
    cbn [write_tree].
  - apply stable_ret.
  - apply stable_bind; [apply stable_write_files | intros [zipf' [e|]]].
    + apply stable_ret.
    + apply IH.
Qed.

Lemma stable_write_archive source_path output_file zipf :
  stable (write_archive RT source_path output_file zipf).
Proof.
  unfold write_archive.
  apply stable_bind; [apply stable_os_walk | intros triples].
  apply stable_bind; [apply stable_write_tree | intros [zipf' raised]].
  stable_steps.
Qed.

(** The outcome of [package_skill] and the tree it leaves depend on the
    tree and the working directory only, not on what was printed or
    traced before. *)
Lemma stable_package_skill skill_name source_path output_path :
  stable (package_skill RT skill_name source_path output_path).
Proof.
  unfold package_skill.
  destruct (validate_skill_name skill_name) as [valid error].
  destruct valid; cbn [negb]; [|stable_steps].
  apply stable_bind; [stable_steps | intros sd].
  apply stable_bind; [stable_steps | intros found].
  destruct found; cbn [negb]; [|stable_steps].
  apply stable_bind; [stable_steps | intros found].
  destruct found; cbn [negb]; [|stable_steps].
  apply stable_bind; [apply stable_validate_frontmatter | intros [ok msg]].
  destruct ok; cbn [negb]; [|stable_steps].
  apply stable_bind; [stable_steps | intros _].
  apply stable_bind; [stable_steps | intros outp].
  apply stable_bind; [stable_steps | intros _].
  apply stable_bind; [stable_steps | intros [e|zipf]]; [stable_steps|].
  apply (stable_write_archive sd (joinpath outp (skill_name ++ lit ".skill"))).
Qed.

End Stable.

(* ================================================================== *)
(** * Facts about package_skill: writing the archive *)
(* ================================================================== *)

Lemma touched_refl loc t : touched loc t t.
Proof. left. reflexivity. Qed.

Lemma touched_put loc t c : touched loc t (put t loc c).
Proof. right. exists c. reflexivity. Qed.

Lemma touched_trans loc t1 t2 t3 :
  touched loc t1 t2 -> touched loc t2 t3 -> touched loc t1 t3.
Proof.
  intros [-> | [c ->]] [-> | [c' ->]].
  - apply touched_refl.
  - apply touched_put.
  - apply touched_put.
  - rewrite put_put. apply touched_put.
Qed.

Lemma put_touched loc t t' c :
  touched loc t t' -> put t' loc c = put t loc c.
Proof. intros [-> | [c' ->]]; [reflexivity | apply put_put]. Qed.

Section Writing.

Variable RT : Runtime.

(** The loops keep the [ZipFile] on its file and change nothing else. *)
Lemma write_files_touch root source_parent files :
  forall zipf w zipf' raised w',
  write_files RT zipf root source_parent files w = (zipf', raised, w') ->
  zf_loc zipf' = zf_loc zipf /\ cwd w' = cwd w
  /\ touched (zf_loc zipf) (fs w) (fs w').
Proof.
  induction files as [|file files IH]; intros zipf w zipf' raised w' H;
    cbn [write_files] in H.
  - inversion H; subst. repeat split. apply touched_refl.
  - destruct (relative_to (joinpath root file) source_parent) as [arcname|].
    2:{ inversion H; subst. repeat split. apply touched_refl. }
    unfold bind at 1 in H. unfold zip_write in H.
    destruct (stat (fs w) (cwd w) (joinpath root file)) as [e|n].
    { inversion H; subst. repeat split. apply touched_refl. }
    unfold bind at 1 in H. cbn [print] in H.
    apply IH in H as (L & C & T). cbn [zf_loc cwd fs set_fs log] in *.
    repeat split; [exact L | exact C |].
    eapply touched_trans; [|exact T]. apply touched_put.
Qed.

Lemma write_tree_touch source_parent triples :
  forall zipf w zipf' raised w',
  write_tree RT zipf source_parent triples w = (zipf', raised, w') ->
  zf_loc zipf' = zf_loc zipf /\ cwd w' = cwd w
  /\ touched (zf_loc zipf) (fs w) (fs w').
Proof.
  induction triples as [|[[root dirs] files] triples IH];
    intros zipf w zipf' raised w' H; cbn [write_tree] in H.
  - inversion H; subst. repeat split. apply touched_refl.
  - unfold bind at 1 in H.
    destruct (write_files RT zipf root source_parent files w)
      as [[zipf1 raised1] w1] eqn:F.
    apply write_files_touch in F as (L & C & T).
    destruct raised1 as [e|].
    + inversion H; subst. repeat split; assumption.
    + apply IH in H as (L' & C' & T').
      repeat split; [congruence | congruence |].
      eapply touched_trans; [exact T|]. rewrite <- L. exact T'.
Qed.

(** When [write_archive] is over, the tree differs from the one it started
    with by a complete archive at the place of the [ZipFile]. *)
Lemma write_archive_tree source_path output_file zipf w r w' :
  write_archive RT source_path output_file zipf w = (r, w') ->
  cwd w' = cwd w /\
  exists members, fs w' = put (fs w) (zf_loc zipf) (Zip true members).
Proof.
  unfold write_archive. unfold bind at 1. unfold os_walk at 1.
  unfold bind at 1.
  match goal with
  | |- context [write_tree RT zipf ?sp ?tr ?w1] =>
      destruct (write_tree RT zipf sp tr w1) as [[zipf' raised] w2] eqn:T
  end.
  apply write_tree_touch in T as (L & C & T).
  cbn [fst snd fs cwd log] in *.
  unfold bind at 1. cbn [zip_close].
  assert (E : put (fs w2) (zf_loc zipf') (Zip true (zf_members zipf')) =
              put (fs w) (zf_loc zipf) (Zip true (zf_members zipf'))).
  { rewrite L. apply put_touched. exact T. }
  destruct raised as [e|].
  - intros H. inversion H; subst. cbn.
    split; [exact C|]. exists (zf_members zipf'). exact E.
  - unfold bind at 1. unfold stat_size at 1.
    match goal with
    | |- context [match ?x with inl _ => _ | inr _ => _ end] => destruct x
    end; intros H; inversion H; subst; cbn;
      (split; [exact C|]); exists (zf_members zipf'); exact E.
Qed.

End Writing.

(* ================================================================== *)
(** * The run as a whole *)
(* ================================================================== *)

Section Runs.

Variable RT : Runtime.
Variables (skill_name : str) (source_path output_path : option str).

Lemma frontmatter_ok_spec w p :
  fst (fst (validate_frontmatter RT p w)) = frontmatter_ok RT w p.
Proof.
  unfold frontmatter_ok.
  destruct (read_text RT (fs w) (cwd w) p) as [e|content] eqn:E.
  - rewrite (validate_frontmatter_unreadable RT _ _ _ E). reflexivity.
  - rewrite (validate_frontmatter_read RT _ _ _ E). reflexivity.
Qed.

(** A run that fails one of the four checks returns [False] and has
    touched nothing. *)
Lemma package_skill_rejected w :
  validated RT skill_name source_path w = false ->
  exists w', package_skill RT skill_name source_path output_path w = (false, w')
             /\ quiet w w'.
Proof.
  intros H.
  destruct (fst (validate_skill_name skill_name)) eqn:V.
  2:{ rewrite (package_skill_bad_name RT _ _ _ _ V). eexists.
      split; [reflexivity|]. split; [reflexivity|]. split; [reflexivity|].
      exists []. split; [symmetry; apply app_nil_r | constructor]. }
  destruct (present w (source_dir skill_name source_path w)) eqn:D.
  2:{ destruct (package_skill_no_directory RT _ _ output_path _ V D)
        as (w' & E & Q & _). exists w'. auto. }
  destruct (present w (manifest skill_name source_path w)) eqn:S.
  2:{ destruct (package_skill_no_manifest RT _ _ output_path _ V D S)
        as (w' & E & Q & _). exists w'. auto. }
  destruct (frontmatter_ok RT w (manifest skill_name source_path w)) eqn:F.
  2:{ apply (package_skill_bad_frontmatter RT _ _ output_path _ V D S F). }
  exfalso. unfold validated in H. rewrite V, D, S, F in H. discriminate H.
Qed.

(** C6. When [validate_skill_name] rejects the identifier, [package_skill]
    returns [False] and has made no call to the file system: the trace of
    calls and the tree are what they were. *)
Theorem rejected_name_no_access w :
  fst (validate_skill_name skill_name) = false ->
  fst (package_skill RT skill_name source_path output_path w) = false
  /\ trace (snd (package_skill RT skill_name source_path output_path w))
     = trace w
  /\ fs (snd (package_skill RT skill_name source_path output_path w)) = fs w.
Proof.
  intros V. rewrite (package_skill_bad_name RT _ _ _ _ V). auto.
Qed.

(** C9. When the identifier is invalid, the source directory or its
    [SKILL.md] is missing, or the frontmatter is rejected, [package_skill]
    returns [False], leaves the tree as it was, in particular whatever is
    or is not at the output path, and has made no call that writes. *)
Theorem failed_validation_writes_nothing w :
  fst (validate_skill_name skill_name) = false
  \/ present w (source_dir skill_name source_path w) = false
  \/ present w (manifest skill_name source_path w) = false
  \/ fst (fst (validate_frontmatter RT
                 (manifest skill_name source_path w) w)) = false ->
  let w' := snd (package_skill RT skill_name source_path output_path w) in
  fst (package_skill RT skill_name source_path output_path w) = false
  /\ fs w' = fs w
  /\ stat (fs w') (cwd w') (output_file skill_name output_path w)
     = stat (fs w) (cwd w) (output_file skill_name output_path w)
  /\ exists calls, trace w' = trace w ++ calls
                   /\ Forall (fun e => is_write e = false) calls.
Proof.
  intros H.
  assert (V : validated RT skill_name source_path w = false).
  { unfold validated. rewrite frontmatter_ok_spec in H.
    destruct H as [-> | [-> | [-> | ->]]];
      rewrite ?andb_false_r; reflexivity. }
  destruct (package_skill_rejected w V) as (w1 & -> & T & C & calls).
  cbn [fst snd]. rewrite T, C. auto.
Qed.

(** A regular file has nothing below it. *)
Lemma nothing_below_a_file w p c :
  stat (fs w) (cwd w) p = inr (File c) ->
  present w (joinpath p (lit "SKILL.md")) = false.
Proof.
  intros H. unfold stat, locate in H.
  destruct (resolve (fs w) (origin (cwd w) p) (parts p)) as [e|l] eqn:R;
    [discriminate H|].
  destruct (lookup (fs w) l) as [n|] eqn:L; [|discriminate H].
  inversion H; subst n.
  unfold present, stat, locate. rewrite joinpath_manifest.
  change (origin (cwd w) (mkPath (absolute p) (parts p ++ [lit "SKILL.md"])))
    with (origin (cwd w) p).
  cbn [parts]. rewrite resolve_app, R. cbn [resolve]. rewrite L. reflexivity.
Qed.

Lemma messages_differ p : ManifestNotFound p <> DirectoryNotFound p.
Proof.
  unfold ManifestNotFound, DirectoryNotFound. intros H.
  apply (f_equal (firstn 12)) in H. vm_compute in H. discriminate H.
Qed.

(** C10. When the identifier is accepted and [<base>/<identifier>] is a
    regular file, [package_skill] fails, and what it prints is the
    "SKILL.md not found" message, not the "Skill directory not found"
    one. *)
Theorem file_in_place_of_directory w c :
  fst (validate_skill_name skill_name) = true ->
  stat (fs w) (cwd w) (source_dir skill_name source_path w) = inr (File c) ->
  let sd := source_dir skill_name source_path w in
  let r := package_skill RT skill_name source_path output_path w in
  fst r = false
  /\ stdout (snd r) = stdout w ++ [ManifestNotFound sd]
  /\ ManifestNotFound sd <> DirectoryNotFound sd
  /\ fs (snd r) = fs w.
Proof.
  intros V S sd r. subst sd r.
  assert (D : present w (source_dir skill_name source_path w) = true)
    by (unfold present; rewrite S; reflexivity).
  pose proof (nothing_below_a_file _ _ _ S) as N.
  destruct (package_skill_no_manifest RT _ _ output_path _ V D N)
    as (w' & E & (T & _) & O).
  rewrite E. cbn [fst snd].
  repeat split; [exact O | apply messages_differ | exact T].
Qed.

End Runs.

(* ================================================================== *)
(** * Successful runs, and running twice *)
(* ================================================================== *)

Section Success.

Variable RT : Runtime.
Variables (skill_name : str) (source_path output_path : option str).

Local Abbreviation run := (package_skill RT skill_name source_path output_path).
Local Abbreviation sd w := (source_dir skill_name source_path w).
Local Abbreviation md w := (manifest skill_name source_path w).
Local Abbreviation out w := (output_file skill_name output_path w).

(** A validated run whose output file can be created goes on from a tree
    in which that file is empty. *)
Lemma package_skill_opened w loc :
  validated RT skill_name source_path w = true ->
  create_at (fs w) (cwd w) (out w) = inr loc ->
  exists w0, run w = write_archive RT (sd w) (out w) (mkZip loc []) w0
             /\ fs w0 = put (fs w) loc (Raw []) /\ cwd w0 = cwd w.
Proof.
  intros V C.
  destruct (package_skill_validated RT _ _ output_path _ V)
    as (w0 & (F & D & _) & E).
  rewrite E. unfold bind at 1. unfold zip_open. rewrite F, D, C.
  eexists. split; [reflexivity|]. split; [reflexivity | exact D].
Qed.

Lemma package_skill_not_opened w e :
  validated RT skill_name source_path w = true ->
  create_at (fs w) (cwd w) (out w) = inl e ->
  fst (run w) = false /\ fs (snd (run w)) = fs w.
Proof.
  intros V C.
  destruct (package_skill_validated RT _ _ output_path _ V)
    as (w0 & (F & D & _) & E).
  rewrite E. unfold bind, zip_open. rewrite F, D, C.
  split; [reflexivity | exact F].
Qed.

(** What a successful run has done. *)
Lemma package_skill_success w w1 :
  run w = (true, w1) ->
  validated RT skill_name source_path w = true
  /\ exists loc members,
       create_at (fs w) (cwd w) (out w) = inr loc
       /\ fs w1 = put (fs w) loc (Zip true members)
       /\ cwd w1 = cwd w.
Proof.
  intros H.
  destruct (validated RT skill_name source_path w) eqn:V.
  2:{ destruct (package_skill_rejected RT _ _ output_path _ V) as (w' & E & _).
      rewrite E in H. discriminate H. }
  split; [reflexivity|].
  destruct (create_at (fs w) (cwd w) (out w)) as [e|loc] eqn:C.
  { destruct (package_skill_not_opened _ _ V C) as [E _].
    rewrite H in E. discriminate E. }
  destruct (package_skill_opened _ _ V C) as (w0 & E & F & D).
  rewrite E in H. apply write_archive_tree in H as (D' & members & F').
  exists loc, members. cbn [zf_loc] in F'.
  rewrite F, put_put in F'. repeat split; congruence.
Qed.

Lemma paths_of_cwd w w' :
  cwd w' = cwd w -> sd w' = sd w /\ md w' = md w /\ out w' = out w.
Proof.
  intros C. unfold manifest, source_dir, output_file. rewrite C. auto.
Qed.

(** The output file is not the manifest. *)
Lemma output_is_not_manifest w loc l :
  fst (validate_skill_name skill_name) = true ->
  create_at (fs w) (cwd w) (out w) = inr loc ->
  locate (fs w) (cwd w) (md w) = inr l ->
  l <> loc.
Proof.
  intros V C L ->.
  destruct (create_at_inr _ _ _ _ C) as (d & es & _ & _ & _ & _ & _ & E).
  unfold locate, manifest in L. rewrite joinpath_manifest in L.
  cbn [parts] in L.
  apply resolve_last in L as (d' & es' & _ & _ & E'); [|reflexivity].
  rewrite E' in E. apply app_inj_tail in E as [_ E].
  unfold name_of, output_file in E. rewrite (joinpath_skill _ _ V) in E.
  cbn [parts] in E. rewrite last_last in E.
  symmetry in E. exact (skill_is_not_manifest _ E).
Qed.

(** The checks that passed before the archive was written pass again
    once it is there. *)
Lemma validated_after w loc c :
  validated RT skill_name source_path w = true ->
  create_at (fs w) (cwd w) (out w) = inr loc ->
  validated RT skill_name source_path
    (mkWorld (put (fs w) loc c) (cwd w) [] []) = true.
Proof.
  intros V C. apply validated_parts in V as (N & D & S & F).
  apply validated_parts.
  set (w' := mkWorld (put (fs w) loc c) (cwd w) [] []).
  destruct (paths_of_cwd w w' eq_refl) as (-> & -> & _).
  split; [exact N|].
  unfold present, frontmatter_ok, read_text in *. cbn [fs cwd w'].
  destruct (stat (fs w) (cwd w) (sd w)) as [?|n1] eqn:S1; [discriminate D|].
  destruct (stat_after_create _ _ _ _ C c _ _ S1) as (n1' & -> & _).
  split; [reflexivity|].
  destruct (stat (fs w) (cwd w) (md w)) as [?|n2] eqn:S2; [discriminate S|].
  destruct (stat_after_create _ _ _ _ C c _ _ S2) as (n2' & -> & K & Same).
  split; [reflexivity|].
  destruct n2 as [c2|es2]; [|discriminate F].
  rewrite Same; [exact F | | reflexivity].
  intros L. exact (output_is_not_manifest _ _ _ N C L eq_refl).
Qed.

Lemma validated_agree w w' :
  agree w w' ->
  validated RT skill_name source_path w = validated RT skill_name source_path w'.
Proof.
  intros [F C]. destruct (paths_of_cwd w' w C) as (S & M & _).
  unfold validated, present, frontmatter_ok. rewrite S, M, F, C. reflexivity.
Qed.

(** C8. If a run of [package_skill] succeeds, a second run with the same
    arguments on the world that the first one left succeeds as well, and
    the output file holds the same archive after both: the same members,
    under the same names, with the same data. *)
Theorem packaging_twice w :
  let first := run w in
  let second := run (snd first) in
  fst first = true ->
  fst second = true
  /\ exists members,
       stat (fs (snd first)) (cwd (snd first)) (out w)
       = inr (File (Zip true members))
       /\ stat (fs (snd second)) (cwd (snd second)) (out w)
          = inr (File (Zip true members)).
Proof.
  intros first second H. subst first second.
  destruct (run w) as [r1 w1] eqn:R1. cbn [fst snd] in *. subst r1.
  destruct (package_skill_success _ _ R1) as (V & loc & members & C & F1 & D1).
  destruct (paths_of_cwd w w1 D1) as (Es & Em & Eo).
  (* the second run passes the checks and opens the same file *)
  assert (V1 : validated RT skill_name source_path w1 = true).
  { rewrite <- (validated_after w loc (Zip true members) V C).
    apply validated_agree. split; [exact F1 | exact D1]. }
  assert (C1 : create_at (fs w1) (cwd w1) (out w1) = inr loc).
  { rewrite Eo, F1, D1. apply create_at_again. exact C. }
  destruct (package_skill_opened _ _ V C) as (a & Ea & Fa & Da).
  destruct (package_skill_opened _ _ V1 C1) as (b & Eb & Fb & Db).
  rewrite Es, Eo in Eb.
  (* both go on from the same tree *)
  assert (A : agree a b).
  { split; [|congruence]. rewrite Fa, Fb, F1. symmetry. apply put_put. }
  destruct (stable_write_archive RT (sd w) (out w) (mkZip loc []) a b A)
    as [Er [Ef Ed]].
  rewrite <- Ea, <- Eb, R1 in Er, Ef, Ed. cbn [fst snd] in Er, Ef, Ed.
  split; [symmetry; exact Er|].
  exists members. rewrite <- Ef, <- Ed, F1, D1.
  split; apply stat_created; exact C.
Qed.

End Success.

(* ================================================================== *)
(** * The exit status *)
(* ================================================================== *)

Section ExitStatus.

Variable RT : Runtime.

Lemma main_status argv w :
  fst (main RT argv w) =
  if length argv <? 2 then 1%Z
  else if fst (package_skill RT (nth 1 argv []) (nth_error argv 2)
                 (nth_error argv 3) w)
       then 0%Z else 1%Z.
Proof.
  unfold main. destruct (length argv <? 2); [reflexivity|].
  unfold bind at 1. cbn [print]. unfold bind at 1.
  match goal with
  | |- context [package_skill RT ?n ?s ?o ?w1] =>
      destruct (stable_package_skill RT n s o w1 w) as [E _];
      [split; reflexivity|];
      destruct (package_skill RT n s o w1) as [ok w2]
  end.
  cbn [fst snd ret] in *. rewrite <- E. reflexivity.
Qed.

(** C7. The exit status of [main] is 1 when no identifier is given.
    Otherwise it is 0 when [package_skill] succeeds on the arguments and 1
    when it fails; it fails, and the status is 1, when one of the four
    checks fails and when the output file cannot be created. *)
Theorem exit_status argv w :
  let status := fst (main RT argv w) in
  let skill_name := nth 1 argv [] in
  let source_path := nth_error argv 2 in
  let output_path := nth_error argv 3 in
  let packaged :=
    fst (package_skill RT skill_name source_path output_path w) in
  (length argv < 2 -> status = 1%Z)
  /\ (2 <= length argv -> packaged = true -> status = 0%Z)
  /\ (2 <= length argv -> packaged = false -> status = 1%Z)
  /\ (2 <= length argv ->
      validated RT skill_name source_path w = false -> status = 1%Z)
  /\ (2 <= length argv ->
      (exists e, create_at (fs w) (cwd w)
                   (output_file skill_name output_path w) = inl e) ->
      status = 1%Z).
Proof.
  intros status skill_name source_path output_path packaged.
  assert (E : status =
              if length argv <? 2 then 1%Z
              else if packaged then 0%Z else 1%Z) by apply main_status.
  assert (H : 2 <= length argv -> packaged = false -> status = 1%Z).
  { intros L P. apply Nat.ltb_ge in L. rewrite E, L, P. reflexivity. }
  split; [|split; [|split; [exact H | split]]].
  - intros L. apply Nat.ltb_lt in L. rewrite E, L. reflexivity.
  - intros L P. apply Nat.ltb_ge in L. rewrite E, L, P. reflexivity.
  - intros L V. apply (H L). subst packaged.
    destruct (package_skill_rejected RT _ _ output_path _ V) as (w' & -> & _).
    reflexivity.
  - intros L [e C]. apply (H L). subst packaged.
    destruct (validated RT skill_name source_path w) eqn:V.
    + apply (package_skill_not_opened RT _ _ _ _ e V C).
    + destruct (package_skill_rejected RT _ _ output_path _ V)
        as (w' & -> & _).
      reflexivity.
Qed.

End ExitStatus.

(* ================================================================== *)
(** * The archive of a well-formed source tree *)
(* ================================================================== *)

Lemma node_induction (P : node -> Prop) :
  (forall c, P (File c)) ->
  (forall es, Forall (fun e => P (snd e)) es -> P (Dir es)) ->
  forall n, P n.
Proof.
  intros HF HD. fix IH 1. intros [c|es].
  - apply HF.
  - apply HD. induction es as [|[k m] es IHes]; constructor.
    + apply IH.
    + exact IHes.
Qed.

Lemma lookup_app t a : forall b,
  lookup t (a ++ b) =
  match lookup t a with
  | Some m => lookup m b
  | None => None
  end.
Proof.
  revert t. induction a as [|k a IH]; intros t b; [reflexivity|].
  destruct t as [c|es]; [reflexivity|]. cbn [app lookup].
  destruct (assoc k es); [apply IH | reflexivity].
Qed.

Lemma assoc_in k m es : assoc k es = Some m -> In (k, m) es.
Proof.
  induction es as [|[k' m'] es IH]; simpl; [discriminate|].
  destruct (eqb k' k) eqn:E.
  - apply eqb_eq in E. intros H. inversion H; subst. left. reflexivity.
  - intros H. right. apply IH. exact H.
Qed.

Lemma distinct_cons k ks :
  distinct (k :: ks) = true -> ~ In k ks /\ distinct ks = true.
Proof.
  simpl. rewrite andb_true_iff, negb_true_iff. intros [E D]. split; [|exact D].
  intros I. assert (X : existsb (eqb k) ks = true).
  { apply existsb_exists. exists k. split; [exact I | apply eqb_refl]. }
  congruence.
Qed.

Lemma in_assoc k m es :
  distinct (map fst es) = true -> In (k, m) es -> assoc k es = Some m.
Proof.
  induction es as [|[k' m'] es IH]; intros D I; [destruct I|].
  cbn [map fst] in D. apply distinct_cons in D as [N D].
  simpl. destruct I as [I | I].
  - inversion I; subst. rewrite eqb_refl. reflexivity.
  - destruct (eqb k' k) eqn:E; [|apply IH; assumption].
    apply eqb_eq in E. subst k'. exfalso. apply N.
    apply (in_map fst) in I. exact I.
Qed.

Lemma wf_dir es :
  wf_node (Dir es) = true ->
  distinct (map fst es) = true
  /\ forall k m, In (k, m) es -> valid_name k = true /\ wf_node m = true.
Proof.
  cbn [wf_node]. rewrite andb_true_iff, forallb_forall. intros [D A].
  split; [exact D|]. intros k m I. apply A in I.
  apply andb_true_iff in I. exact I.
Qed.

Lemma valid_name_spec s :
  valid_name s = true ->
  s <> [] /\ ~ In SLASH s /\ s <> [DOT] /\ eqb s DOTDOT = false.
Proof.
  unfold valid_name. rewrite !andb_true_iff, !negb_true_iff.
  intros [[[E S] D] DD]. repeat split.
  - apply eqb_neq. exact E.
  - intros I. assert (X : existsb (N.eqb SLASH) s = true).
    { apply existsb_exists. exists SLASH. split; [exact I | apply N.eqb_refl]. }
    congruence.
  - apply eqb_neq. exact D.
  - exact DD.
Qed.

(** The files listed are the files found by their names. *)
Lemma files_below_spec : forall n, wf_node n = true ->
  forall rel c,
    In (rel, c) (files_below n) <->
    lookup n rel = Some (File c) /\ rel <> [].
Proof.
  induction n as [c0|es IH] using node_induction; intros WF rel c.
  - simpl. split; [intros [] | intros [L N]].
    destruct rel; [congruence | discriminate L].
  - destruct (wf_dir _ WF) as [D V]. rewrite Forall_forall in IH.
    cbn [files_below]. rewrite in_app_iff, !in_flat_map. split.
    + intros [([k m] & I & H) | ([k m] & I & H)]; cbn [fst snd] in H.
      * destruct m as [c'|es']; [|destruct H].
        destruct H as [H | []]. inversion H; subst.
        cbn [lookup]. rewrite (in_assoc _ _ _ D I). split; [reflexivity|discriminate].
      * destruct m as [c'|es']; [destruct H|].
        apply in_map_iff in H as ([r c1] & E & H). cbn [fst snd] in E.
        inversion E; subst.
        apply (IH _ I) in H as [L N]; [|apply (V _ _ I)].
        cbn [lookup]. rewrite (in_assoc _ _ _ D I). split; [exact L|discriminate].
    + intros [L N]. destruct rel as [|k r]; [congruence|].
      cbn [lookup] in L. destruct (assoc k es) as [m|] eqn:A; [|discriminate L].
      apply assoc_in in A. destruct m as [c'|es'].
      * destruct r; [|discriminate L]. simpl in L. inversion L; subst.
        left. exists (k, File c). split; [exact A | left; reflexivity].
      * right. exists (k, Dir es'). split; [exact A|]. cbn [fst snd].
        apply in_map_iff. exists (r, c). split; [reflexivity|].
        apply (IH _ A); [apply (V _ _ A)|]. split; [exact L|].
        intros ->. discriminate L.
Qed.

(** Storing a file leaves alone whatever is not on the way to it. *)
Lemma lookup_put_outside c : forall loc t q,
  (forall es, lookup t loc <> Some (Dir es)) ->
  (forall r, loc <> q ++ r) ->
  lookup (put t loc c) q = lookup t q.
Proof.
  induction loc as [|k r IH]; intros t q ND O.
  - destruct q as [|k' q']; [exfalso; apply (O []); reflexivity|].
    destruct t as [c0|es]; [reflexivity|].
    exfalso. apply (ND es). reflexivity.
  - destruct q as [|k' q']; [exfalso; apply (O (k :: r)); reflexivity|].
    destruct t as [c0|es]; [reflexivity|]. cbn [put lookup] in *.
    destruct (eqb k k') eqn:E.
    + apply eqb_eq in E. subst k'. rewrite assoc_update_same.
      destruct (assoc k es) as [m|].
      * apply IH; [exact ND|]. intros r' ->. apply (O r'). reflexivity.
      * destruct r; [|reflexivity]. simpl. rewrite eqb_refl.
        destruct q'; [exfalso; apply (O []); reflexivity | reflexivity].
    + rewrite assoc_update_other;
        [reflexivity | exact E | apply assoc_missing_other; exact E].
Qed.

(** Plain names resolve to themselves. *)
Lemma resolve_names t names : forall cur n,
  Forall (fun k => eqb k DOTDOT = false) names ->
  lookup t (cur ++ names) = Some n ->
  resolve t cur names = inr (cur ++ names).
Proof.
  induction names as [|k names IH]; intros cur n A L.
  - rewrite app_nil_r in *. simpl. rewrite L. reflexivity.
  - inversion A as [|? ? K A']; subst. cbn [resolve].
    pose proof L as L'. rewrite lookup_app in L'.
    destruct (lookup t cur) as [[c0|es]|]; try discriminate L'.
    rewrite K.
    replace (cur ++ k :: names) with ((cur ++ [k]) ++ names) in *
      by (rewrite <- app_assoc; reflexivity).
    apply (IH _ n A' L).
Qed.

Lemma strip_prefix_app a b : strip_prefix a (a ++ b) = Some b.
Proof.
  induction a as [|x a IH]; simpl; [reflexivity|].
  rewrite eqb_refl. exact IH.
Qed.

Section Archive.

Variable RT : Runtime.

(** The tree before the run, the working directory, and the place where
    the output file is created. *)
Variables (t0 : node) (wd : list str) (outp : Path) (loc : list str).
Hypothesis created : create_at t0 wd outp = inr loc.

(** The source directory [<base>/<name>] and the place it resolves to,
    which does not hold the output file. *)
Variables (anchored : bool) (base : list str) (name : str).
Variable src_loc : list str.
Hypothesis located :
  resolve t0 (origin wd (mkPath anchored (base ++ [name]))) (base ++ [name])
  = inr src_loc.
Hypothesis outside : forall r, loc <> src_loc ++ r.

Let top (rel : list str) : Path := mkPath anchored ((base ++ [name]) ++ rel).
Let par : Path := mkPath anchored base.
Let plain (rel : list str) : Prop :=
  Forall (fun k => eqb k DOTDOT = false) rel.
Let under (rel : list str) (l : list (list str * content)) : list zip_entry :=
  map (member_of RT name) (map (fun rc => (rel ++ fst rc, snd rc)) l).
Let extend (zipf : ZipFile) (l : list zip_entry) : ZipFile :=
  mkZip loc (zf_members zipf ++ l).
Let inv (zipf : ZipFile) (w : world) : Prop :=
  zf_loc zipf = loc /\ cwd w = wd /\ exists c, fs w = put t0 loc c.

Lemma locate_below rel n :
  plain rel -> lookup t0 (src_loc ++ rel) = Some n ->
  locate t0 wd (top rel) = inr (src_loc ++ rel).
Proof.
  intros P L. unfold locate, top. cbn [parts].
  change (origin wd (mkPath anchored ((base ++ [name]) ++ rel)))
    with (origin wd (mkPath anchored (base ++ [name]))).
  rewrite resolve_app, located. apply (resolve_names _ _ _ n P L).
Qed.

(** While the archive is written, a file of the source tree reads as it
    did before the run. *)
Lemma stat_during c rel f :
  plain rel -> lookup t0 (src_loc ++ rel) = Some (File f) ->
  stat (put t0 loc c) wd (top rel) = inr (File f).
Proof.
  intros P L.
  assert (S : stat t0 wd (top rel) = inr (File f)).
  { unfold stat. rewrite (locate_below _ _ P L), L. reflexivity. }
  destruct (stat_after_create _ _ _ _ created c _ _ S) as (n' & -> & _ & E).
  rewrite E; [reflexivity | | reflexivity].
  rewrite (locate_below _ _ P L). intros H. inversion H as [H'].
  apply (outside rel). symmetry. exact H'.
Qed.

Lemma extend_nil zipf : zf_loc zipf = loc -> extend zipf [] = zipf.
Proof.
  intros <-. destruct zipf. unfold extend. cbn. rewrite app_nil_r. reflexivity.
Qed.

Lemma extend_extend zipf l l' :
  extend (extend zipf l) l' = extend zipf (l ++ l').
Proof. unfold extend. cbn. rewrite app_assoc. reflexivity. Qed.

Lemma under_app rel l l' : under rel (l ++ l') = under rel l ++ under rel l'.
Proof. unfold under. rewrite !map_app. reflexivity. Qed.

Lemma under_cons rel k l :
  under rel (map (fun rc => (k :: fst rc, snd rc)) l) = under (rel ++ [k]) l.
Proof.
  unfold under. rewrite !map_map. apply map_ext. intros [r c]. cbn [fst snd].
  rewrite <- app_assoc. reflexivity.
Qed.

Section Directory.

Variables (rel : list str) (es : list (str * node)).
Hypothesis plain_rel : plain rel.
Hypothesis here : lookup t0 (src_loc ++ rel) = Some (Dir es).
Hypothesis wf_here : wf_node (Dir es) = true.

Lemma child k m :
  In (k, m) es ->
  plain (rel ++ [k]) /\ lookup t0 (src_loc ++ rel ++ [k]) = Some m
  /\ joinpath (top rel) k = top (rel ++ [k]).
Proof.
  intros I. destruct (wf_dir _ wf_here) as [D V].
  destruct (V _ _ I) as [VK _].
  destruct (valid_name_spec _ VK) as (NE & NS & ND & NDD).
  split; [|split].
  - apply Forall_app. split; [exact plain_rel | constructor; [exact NDD | constructor]].
  - rewrite app_assoc, lookup_app, here. cbn [lookup].
    rewrite (in_assoc _ _ _ D I). reflexivity.
  - rewrite (joinpath_single _ _ NE NS ND). unfold top. cbn [absolute parts].
    rewrite <- !app_assoc. reflexivity.
Qed.

(** The inner loop adds the files of the directory, one member each. *)
Lemma write_files_direct : forall es', incl es' es ->
  forall zipf w, inv zipf w ->
  exists w',
    write_files RT zipf (top rel) par (filenames es') w
    = (extend zipf (under rel
         (flat_map (fun e =>
            match snd e with
            | File c => [([fst e], c)]
            | Dir _ => []
            end) es')), None, w')
    /\ inv (extend zipf []) w'.
Proof.
  induction es' as [|[k m] es' IH]; intros I zipf w (ZL & C & X & F).
  - exists w. cbn. rewrite (extend_nil _ ZL).
    repeat split; [exact ZL | exact C | exists X; exact F].
  - assert (I' : incl es' es) by (intros e He; apply I; right; exact He).
    destruct m as [f|es1]; [|apply (IH I' zipf w); repeat split; eauto].
    destruct (child k (File f)) as (P & L & J); [apply I; left; reflexivity|].
    unfold filenames. cbn [filter snd is_dir negb map fst write_files].
    fold (filenames es'). rewrite J.
    assert (R : relative_to (top (rel ++ [k])) par
                = Some (mkPath false (name :: rel ++ [k]))).
    { unfold relative_to, top, par. cbn [absolute parts].
      rewrite Bool.eqb_reflx, <- !app_assoc, strip_prefix_app. reflexivity. }
    rewrite R. unfold bind at 1. unfold zip_write.
    rewrite F, C, (stat_during X _ _ P L).
    unfold bind at 1. cbn [print].
    match goal with
    | |- context [write_files RT ?z _ _ _ ?w1] =>
        destruct (IH I' z w1) as (w' & E & (_ & C' & X' & F'))
    end.
    { split; [exact ZL|]. split; [exact C|]. eexists. cbn [fs set_fs log].
      rewrite ZL. apply put_put. }
    exists w'. rewrite E. split.
    + f_equal. f_equal. unfold extend. cbn [zf_members zf_loc flat_map fst snd].
      rewrite under_app, <- app_assoc. reflexivity.
    + repeat split; [exact C' | exists X'; exact F'].
Qed.

End Directory.

(** The outer loop adds every file below a directory of the source tree. *)
Lemma write_tree_below : forall n, wf_node n = true ->
  forall rel, plain rel -> lookup t0 (src_loc ++ rel) = Some n ->
  forall more zipf w, inv zipf w ->
  exists w',
    write_tree RT zipf par (walk (top rel) n ++ more) w
    = write_tree RT (extend zipf (under rel (files_below n))) par more w'
    /\ inv (extend zipf []) w'.
Proof.
  induction n as [f|es IH] using node_induction;
    intros WF rel P L more zipf w I.
  - exists w. cbn [walk files_below app]. unfold under. cbn [map].
    destruct I as (ZL & C & X). rewrite (extend_nil _ ZL).
    split; [reflexivity | repeat split; assumption].
  - cbn [walk files_below app write_tree]. unfold bind at 1.
    destruct (write_files_direct rel es P L WF es (incl_refl _) zipf w I)
      as (w1 & -> & I1).
    rewrite under_app, <- extend_extend.
    assert (I1' : inv (extend zipf (under rel
        (flat_map (fun e => match snd e with
                            | File c => [([fst e], c)]
                            | Dir _ => []
                            end) es))) w1).
    { destruct I1 as (_ & C & X). split; [reflexivity | auto]. }
    clear I1 I. revert I1'.
    generalize (extend zipf (under rel
        (flat_map (fun e => match snd e with
                            | File c => [([fst e], c)]
                            | Dir _ => []
                            end) es))).
    intros z I. revert z w1 I.
    (* the sub-directories, one after the other *)
    assert (S : forall es', incl es' es -> forall z w1, inv z w1 ->
      exists w',
        write_tree RT z par
          (flat_map (fun e => match snd e with
                              | Dir _ => walk (joinpath (top rel) (fst e)) (snd e)
                              | File _ => []
                              end) es' ++ more) w1
        = write_tree RT
            (extend z (under rel
               (flat_map (fun e =>
                  match snd e with
                  | Dir _ => map (fun rc => (fst e :: fst rc, snd rc))
                               (files_below (snd e))
                  | File _ => []
                  end) es'))) par more w'
        /\ inv (extend z []) w').
    { induction es' as [|[k m] es' IHes]; intros Sub z w1 I.
      - exists w1. cbn. destruct I as (ZL & C & X).
        rewrite (extend_nil _ ZL).
        split; [reflexivity | repeat split; assumption].
      - assert (Sub' : incl es' es) by (intros e He; apply Sub; right; exact He).
        assert (In_m : In (k, m) es) by (apply Sub; left; reflexivity).
        destruct m as [f|es1]; [apply (IHes Sub' z w1 I)|].
        cbn [flat_map fst snd]. rewrite <- app_assoc.
        destruct (child rel es P L WF k (Dir es1) In_m) as (Pk & Lk & ->).
        rewrite Forall_forall in IH.
        pose proof (IH _ In_m (proj2 (proj2 (wf_dir _ WF) _ _ In_m))
                      (rel ++ [k]) Pk) as IHm.
        cbn [snd] in IHm.
        destruct (IHm Lk
          (flat_map (fun e => match snd e with
                              | Dir _ => walk (joinpath (top rel) (fst e)) (snd e)
                              | File _ => []
                              end) es' ++ more) z w1 I)
          as (w2 & -> & I2).
        destruct (IHes Sub' (extend z (under (rel ++ [k]) (files_below (Dir es1)))) w2)
          as (w3 & -> & I3).
        { destruct I2 as (_ & C & X). split; [reflexivity | auto]. }
        exists w3. rewrite extend_extend, under_app, under_cons.
        split; [reflexivity|].
        destruct I3 as (_ & C & X). split; [reflexivity | auto]. }
    intros z w1 I. apply (S es (incl_refl _) z w1 I).
Qed.

(** The whole source tree, into a fresh archive. *)
Lemma write_tree_source tree w c :
  wf_node tree = true -> lookup t0 src_loc = Some tree ->
  cwd w = wd -> fs w = put t0 loc c ->
  exists w',
    write_tree RT (mkZip loc []) par
      (walk (mkPath anchored (base ++ [name])) tree) w
    = (mkZip loc (map (member_of RT name) (files_below tree)), None, w')
    /\ cwd w' = wd /\ exists c', fs w' = put t0 loc c'.
Proof.
  intros WF L C F.
  destruct (write_tree_below tree WF [] (Forall_nil _)) with
    (more := @nil (Path * list str * list str)) (zipf := mkZip loc []) (w := w)
    as (w' & E & (_ & C' & X')).
  - rewrite app_nil_r. exact L.
  - split; [reflexivity|]. split; [exact C|]. exists c. exact F.
  - exists w'. split; [|split; assumption].
    unfold top in E. rewrite !app_nil_r in E. rewrite E.
    unfold extend, under. cbn [write_tree zf_members app].
    rewrite map_map. unfold ret.
    rewrite (map_ext _ (member_of RT name)); [reflexivity|].
    intros [r f]. reflexivity.
Qed.

End Archive.

Lemma distinct_NoDup names : distinct names = true -> NoDup names.
Proof.
  induction names as [|k ks IH]; intros D; constructor;
    apply distinct_cons in D as [N D]; auto.
Qed.

(** The names on the way to a node of a well-formed tree are valid. *)
Lemma lookup_valid rel : forall n m,
  wf_node n = true -> lookup n rel = Some m ->
  Forall (fun k => valid_name k = true) rel /\ wf_node m = true.
Proof.
  induction rel as [|k rel IH]; intros n m WF L.
  - simpl in L. inversion L; subst. auto.
  - destruct n as [c|es]; [discriminate L|]. cbn [lookup] in L.
    destruct (assoc k es) as [m'|] eqn:A; [|discriminate L].
    apply assoc_in in A. destruct (wf_dir _ WF) as [_ V].
    destruct (V _ _ A) as [VK WF']. destruct (IH _ _ WF' L) as [F W].
    split; [constructor; assumption | exact W].
Qed.

Lemma valid_names_plain rel :
  Forall (fun k => valid_name k = true) rel ->
  Forall (fun k => ~ In SLASH k) rel.
Proof.
  intros F. eapply Forall_impl; [|exact F].
  intros k V. apply (valid_name_spec _ V).
Qed.

Lemma map_flat_map {A B C} (h : B -> C) (f : A -> list B) l :
  map h (flat_map f l) = flat_map (fun x => map h (f x)) l.
Proof.
  induction l as [|x l IH]; simpl; [reflexivity|].
  rewrite map_app, IH. reflexivity.
Qed.

(** Lists made for different keys, each without repetition and each
    holding only items of its key, join into a list without repetition. *)
Lemma NoDup_flat_map_keyed {A B} (f : A -> list B) (key : B -> str)
    (g : A -> str) es :
  NoDup (map g es) ->
  (forall e x, In e es -> In x (f e) -> key x = g e) ->
  (forall e, In e es -> NoDup (f e)) ->
  NoDup (flat_map f es).
Proof.
  induction es as [|a es IH]; intros D K U; simpl; [constructor|].
  inversion D as [|? ? NI D']; subst.
  apply NoDup_app.
  - apply U. left. reflexivity.
  - apply IH; [exact D' | |]; intros; [apply K | apply U]; simpl; auto.
  - intros x Ia Ib. apply in_flat_map in Ib as (e & Ie & Ix).
    apply NI. apply in_map_iff. exists e. split; [|exact Ie].
    rewrite <- (K e x), <- (K a x); simpl; auto.
Qed.

(** No file is listed twice. *)
Lemma files_below_NoDup : forall n, wf_node n = true ->
  NoDup (map fst (files_below n)).
Proof.
  induction n as [c|es IH] using node_induction; intros WF; [constructor|].
  destruct (wf_dir _ WF) as [D V]. apply distinct_NoDup in D.
  rewrite Forall_forall in IH.
  cbn [files_below]. rewrite map_app, !map_flat_map. apply NoDup_app.
  - apply (NoDup_flat_map_keyed _ (fun rel => hd [] rel) fst); [exact D | |].
    + intros [k m] x _ I. destruct m; [|destruct I].
      destruct I as [<- | []]. reflexivity.
    + intros [k m] _. destruct m; repeat constructor. intros [].
  - apply (NoDup_flat_map_keyed _ (fun rel => hd [] rel) fst); [exact D | |].
    + intros [k m] x _ I. destruct m; [destruct I|]. cbn [fst snd] in I.
      rewrite map_map in I. apply in_map_iff in I as (rc & <- & _).
      reflexivity.
    + intros [k m] I. destruct m as [c|es']; [constructor|]. cbn [fst snd].
      replace (map fst (map (fun rc => (k :: fst rc, snd rc))
                          (files_below (Dir es'))))
        with (map (cons k) (map fst (files_below (Dir es'))))
        by (rewrite !map_map; reflexivity).
      apply NoDup_map_NoDup_ForallPairs.
      * intros a b _ _ E. inversion E. reflexivity.
      * apply (IH _ I). apply (V _ _ I).
  - intros x Ia Ib.
    apply in_flat_map in Ia as ([k m] & _ & Ia).
    apply in_flat_map in Ib as ([k' m'] & Im & Ib).
    destruct m; [|destruct Ia]. destruct Ia as [<- | []].
    destruct m' as [c'|es']; [destruct Ib|]. cbn [fst snd] in Ib.
    rewrite map_map in Ib. apply in_map_iff in Ib as ([r c1] & E & Ib).
    cbn [fst snd] in E. inversion E; subst.
    apply (files_below_spec _ (proj2 (V _ _ Im))) in Ib as [_ NE].
    congruence.
Qed.

Lemma split_app_sep sep c : forall r,
  ~ In sep c -> split sep (c ++ sep :: r) = c :: split sep r.
Proof.
  induction c as [|x c IH]; intros r H.
  - cbn [app split]. rewrite N.eqb_refl. reflexivity.
  - assert (X : N.eqb x sep = false).
    { apply N.eqb_neq. intros ->. apply H. left. reflexivity. }
    cbn [app split]. rewrite X, IH; [reflexivity|].
    intros I. apply H. right. exact I.
Qed.

(** Names without a slash are read back from their joined form. *)
Lemma split_join l :
  l <> [] -> Forall (fun k => ~ In SLASH k) l ->
  split SLASH (join [SLASH] l) = l.
Proof.
  induction l as [|k l IH]; intros NE F; [congruence|].
  inversion F as [|? ? K F']; subst.
  destruct l as [|k' l]; [apply split_single; exact K|].
  change (join [SLASH] (k :: k' :: l))
    with (k ++ SLASH :: join [SLASH] (k' :: l)).
  rewrite (split_app_sep _ _ _ K), IH; [reflexivity | discriminate | exact F'].
Qed.

Section SourceTree.

Variable RT : Runtime.
Variables (skill_name : str) (source_path output_path : option str).
Variable w : world.
Variables (loc src_loc : list str) (tree : node).

Hypothesis checked : validated RT skill_name source_path w = true.
Hypothesis created :
  create_at (fs w) (cwd w) (output_file skill_name output_path w) = inr loc.
Hypothesis located :
  locate (fs w) (cwd w) (source_dir skill_name source_path w) = inr src_loc.
Hypothesis source : lookup (fs w) src_loc = Some tree.
Hypothesis well_formed : wf_node tree = true.
Hypothesis outside : forall r, loc <> src_loc ++ r.

Lemma source_dir_parts :
  exists anchored base,
    source_dir skill_name source_path w = mkPath anchored (base ++ [skill_name]).
Proof.
  apply validated_parts in checked as (V & _).
  destruct (valid_name_chars _ V) as (NE & NS & ND).
  assert (ND' : skill_name <> [DOT]).
  { intros E. apply ND. rewrite E. left. reflexivity. }
  unfold source_dir. destruct source_path as [given|];
    rewrite (joinpath_single _ _ NE NS ND'); eexists; eexists; reflexivity.
Qed.

(** The run succeeds and the archive is the list of the files below the
    source directory. *)
Lemma source_tree_archived :
  let r := package_skill RT skill_name source_path output_path w in
  fst r = true
  /\ stat (fs (snd r)) (cwd (snd r)) (output_file skill_name output_path w)
     = inr (File (Zip true
         (map (member_of RT skill_name) (files_below tree)))).
Proof.
  intros r. subst r.
  set (members := map (member_of RT skill_name) (files_below tree)).
  destruct source_dir_parts as (anchored & base & SD).
  destruct (package_skill_opened RT _ _ output_path _ _ checked created)
    as (w0 & -> & F0 & C0).
  pose proof located as L. rewrite SD in L. unfold locate in L. cbn [parts] in L.
  destruct (create_at_inr _ _ _ _ created) as (_ & _ & _ & _ & _ & _ & ND & _).
  (* os.walk sees the source tree as it was *)
  assert (S0 : stat (fs w0) (cwd w0) (source_dir skill_name source_path w)
               = inr tree).
  { unfold stat, locate. rewrite F0, C0.
    rewrite (resolve_keeps _ _ _ (put_keeps_shape _ _ (Raw []) ND) _ _ located).
    rewrite (lookup_put_outside _ _ _ _ ND outside), source. reflexivity. }
  assert (Run : exists w',
    write_archive RT (source_dir skill_name source_path w)
      (output_file skill_name output_path w) (mkZip loc []) w0 = (true, w')
    /\ fs w' = put (fs w) loc (Zip true members) /\ cwd w' = cwd w).
  { unfold write_archive. unfold bind at 1. unfold os_walk at 1. rewrite S0.
    rewrite SD. unfold parent. cbn [absolute parts]. rewrite removelast_last.
    unfold bind at 1.
    match goal with
    | |- context [write_tree RT _ _ _ ?w1] =>
        destruct (write_tree_source RT _ _ _ _ created _ _ _ _ L outside
                    tree w1 (Raw []) well_formed source)
          as (w2 & -> & C2 & c2 & F2); [exact C0 | exact F0 |]
    end.
    unfold bind at 1. cbn [zip_close zf_loc zf_members].
    assert (F3 : put (fs w2) loc (Zip true members)
                 = put (fs w) loc (Zip true members)).
    { rewrite F2. apply put_put. }
    unfold bind at 1. unfold stat_size at 1. cbn [fs cwd set_fs log].
    fold members. rewrite F3, C2, (stat_created _ _ _ _ created).
    eexists. split; [reflexivity|]. cbn. split; [reflexivity | exact C2]. }
  destruct Run as (w' & -> & F' & C'). cbn [fst snd].
  split; [reflexivity|].
  rewrite F', C'. apply stat_created. exact created.
Qed.

(** The source path names a directory. *)
Lemma source_is_directory : exists es, tree = Dir es.
Proof.
  destruct tree as [c|es] eqn:T; [|eauto]. exfalso.
  pose proof checked as V. apply validated_parts in V as (_ & _ & M & _).
  unfold manifest in M.
  rewrite (nothing_below_a_file w _ c) in M; [discriminate M|].
  unfold stat. rewrite located, source. reflexivity.
Qed.



End SourceTree.

(* ================================================================== *)
(** * The name check and a newline at the end *)
(* ================================================================== *)

(** Any accepted spelling stays accepted with a newline after it, as long
    as the length allows. *)
Lemma validate_skill_name_newline name :
  well_formed_name name -> length name < 64 ->
  validate_skill_name (name ++ [NL]) = (true, None).
Proof.
  intros WF L.
  assert (H : fst (validate_skill_name (name ++ [NL])) = true).
  { apply validate_skill_name_true. split; [exists name; auto|].
    rewrite length_app. simpl. lia. }
  destruct (validate_skill_name_result (name ++ [NL])) as [E | [E | E]];
    rewrite E in H; [exact E | discriminate | discriminate].
Qed.

(** C1 fails on the code. The identifier [foo] followed by a newline holds
    a character outside [a-z], [0-9] and [-], and [validate_skill_name]
    accepts it: Python's [$] also matches just before a newline that ends
    the string. *)
Theorem trailing_newline_accepted :
  In NL (lit "foo" ++ [NL]) /\ name_class NL = false
  /\ ~ well_formed_name (lit "foo" ++ [NL])
  /\ validate_skill_name (lit "foo" ++ [NL]) = (true, None).
Proof.
  split; [vm_compute; tauto|]. split; [reflexivity|]. split; [|reflexivity].
  intros [_ A]. rewrite Forall_forall in A.
  assert (I : In NL (lit "foo" ++ [NL])) by (vm_compute; tauto).
  apply A in I. discriminate I.
Qed.

(* ================================================================== *)
(** * The archive of the sample skill *)
(* ================================================================== *)

(** The example of the specification: [foo] holds [SKILL.md] and
    [helper.txt] and is packaged from its parent directory with the
    default paths. The archive [foo.skill] has exactly those two members,
    with the bytes of the files. *)
Lemma end_to_end_example RT :
  let w := sample_world four_lines_bytes in
  let r := package_skill RT (lit "foo") None None w in
  fst r = true
  /\ stat (fs (snd r)) (cwd (snd r)) (output_file (lit "foo") None w)
     = inr (File (Zip true [(lit "foo/SKILL.md", four_lines_bytes);
                            (lit "foo/helper.txt", blit "hello")])).
Proof. vm_compute. split; reflexivity. Qed.

(** C2 fails on the code. The same directory packaged with the output
    directory [foo], that is into [foo/foo.skill]: the run succeeds and the
    archive has a third member, [foo/foo.skill], which is the archive
    itself as it stood on disk when it was read. The [ZipFile] creates its
    file before [os.walk] lists the directory. *)
Theorem archive_contains_itself RT :
  let w := sample_world four_lines_bytes in
  let r := package_skill RT (lit "foo") None (Some (lit "foo")) w in
  let two := [(lit "foo/SKILL.md", four_lines_bytes);
              (lit "foo/helper.txt", blit "hello")] in
  fst r = true
  /\ lookup (fs w) [lit "work"; lit "foo"]
     = Some (Dir [(lit "SKILL.md", File (Raw four_lines_bytes));
                  (lit "helper.txt", File (Raw (blit "hello")))])
  /\ stat (fs (snd r)) (cwd (snd r))
       (output_file (lit "foo") (Some (lit "foo")) w)
     = inr (File (Zip true
         (two ++ [(lit "foo/foo.skill", zip_image RT false two)]))).
Proof. vm_compute. repeat split; reflexivity. Qed.

(* ================================================================== *)
(** * Instances *)
(* ================================================================== *)

Lemma missing_start_iff_witness :
  let w := sample_world (blit "# no frontmatter") in
  read_text sample_runtime (fs w) (cwd w) foo_manifest
  = inr (lit "# no frontmatter")
  /\ (fst (validate_frontmatter sample_runtime foo_manifest w)
      = (false, Some MissingStart)
      <-> ~ Prefix delimiter (lit "# no frontmatter")).
Proof.
  split; [reflexivity|].
  apply (missing_start_iff sample_runtime foo_manifest
           (sample_world (blit "# no frontmatter"))).
  reflexivity.
Defined.

Lemma missing_end_iff_witness :
  let w := sample_world padded_bytes in
  let content := lit "---" ++ [NL] ++ lit " --- " in
  read_text sample_runtime (fs w) (cwd w) foo_manifest = inr content
  /\ Prefix delimiter content
  /\ (fst (validate_frontmatter sample_runtime foo_manifest w)
      = (false, Some MissingEnd)
      <-> forall line, In line (tl (split NL content)) ->
                       strip line <> delimiter)
  /\ (fst (validate_frontmatter sample_runtime foo_manifest w)
      = (false, Some MissingEnd) ->
      forall line, In line (tl (split NL content)) -> line <> delimiter).
Proof.
  split; [reflexivity|].
  split; [exists ([NL] ++ lit " --- "); reflexivity|].
  apply (missing_end_iff sample_runtime foo_manifest
           (sample_world padded_bytes)).
  - reflexivity.
  - exists ([NL] ++ lit " --- "). reflexivity.
Defined.

(** C3 as it was put: with "consists of [---] alone" in place of "equals
    [---] once stripped", the equivalence is false. The manifest
    [---\n --- ] has no later line that is [---] alone, and the failure is
    not the "must end with ---" one. *)
Lemma bare_delimiter_counterexample :
  ~ (forall RT p w content,
       read_text RT (fs w) (cwd w) p = inr content ->
       Prefix delimiter content ->
       (fst (validate_frontmatter RT p w) = (false, Some MissingEnd) <->
        forall line, In line (tl (split NL content)) -> line <> delimiter)).
Proof.
  intros H.
  specialize (H sample_runtime foo_manifest (sample_world padded_bytes)
                (lit "---" ++ [NL] ++ lit " --- ") eq_refl).
  destruct H as [_ H]; [exists ([NL] ++ lit " --- "); reflexivity|].
  assert (E : fst (validate_frontmatter sample_runtime foo_manifest
                     (sample_world padded_bytes))
              = (false, Some MissingName)) by reflexivity.
  rewrite E in H.
  assert (F : (false, Some MissingName) = (false, Some MissingEnd)).
  { apply H. intros line [<- | []]. apply neq_by_eqb. reflexivity. }
  clash.
Qed.


Lemma rejected_name_no_access_witness :
  let w := sample_world four_lines_bytes in
  let r := package_skill sample_runtime (lit "Foo_Bar") None None w in
  fst (validate_skill_name (lit "Foo_Bar")) = false
  /\ fst r = false /\ trace (snd r) = trace w /\ fs (snd r) = fs w.
Proof.
  split; [reflexivity|].
  apply (rejected_name_no_access sample_runtime (lit "Foo_Bar") None None
           (sample_world four_lines_bytes)).
  reflexivity.
Defined.

Lemma failed_validation_writes_nothing_witness :
  let w := sample_world padded_bytes in
  let w' := snd (package_skill sample_runtime (lit "foo") None None w) in
  fst (fst (validate_frontmatter sample_runtime
              (manifest (lit "foo") None w) w)) = false
  /\ fst (package_skill sample_runtime (lit "foo") None None w) = false
  /\ fs w' = fs w
  /\ stat (fs w') (cwd w') (output_file (lit "foo") None w)
     = stat (fs w) (cwd w) (output_file (lit "foo") None w)
  /\ exists calls, trace w' = trace w ++ calls
                   /\ Forall (fun e => is_write e = false) calls.
Proof.
  split; [reflexivity|].
  apply (failed_validation_writes_nothing sample_runtime (lit "foo") None None
           (sample_world padded_bytes)).
  right. right. right. reflexivity.
Defined.

Lemma file_in_place_of_directory_witness :
  let sd := source_dir (lit "foo") None flat_world in
  let r := package_skill sample_runtime (lit "foo") None None flat_world in
  fst (validate_skill_name (lit "foo")) = true
  /\ stat (fs flat_world) (cwd flat_world) sd = inr (File (Raw (blit "x")))
  /\ fst r = false
  /\ stdout (snd r) = stdout flat_world ++ [ManifestNotFound sd]
  /\ ManifestNotFound sd <> DirectoryNotFound sd
  /\ fs (snd r) = fs flat_world.
Proof.
  split; [reflexivity|]. split; [reflexivity|].
  apply (file_in_place_of_directory sample_runtime (lit "foo") None None
           flat_world (Raw (blit "x"))); reflexivity.
Defined.

Lemma exit_status_witness :
  let w := sample_world four_lines_bytes in
  (fst (main sample_runtime [lit "package_skill.py"] w) = 1%Z)
  /\ (fst (main sample_runtime [lit "package_skill.py"; lit "foo"] w) = 0%Z)
  /\ (fst (main sample_runtime [lit "package_skill.py"; lit "Foo_Bar"] w)
      = 1%Z)
  /\ (fst (main sample_runtime [lit "package_skill.py"; lit "bar"] w) = 1%Z)
  /\ (fst (main sample_runtime
             [lit "package_skill.py"; lit "foo"; lit "."; lit "nowhere"] w)
      = 1%Z).
Proof.
  intros w. split; [|split; [|split; [|split]]].
  - apply (proj1 (exit_status sample_runtime [lit "package_skill.py"] w)).
    simpl. lia.
  - apply (proj1 (proj2 (exit_status sample_runtime
                           [lit "package_skill.py"; lit "foo"] w))).
    + simpl. lia.
    + reflexivity.
  - apply (proj1 (proj2 (proj2 (exit_status sample_runtime
                           [lit "package_skill.py"; lit "Foo_Bar"] w)))).
    + simpl. lia.
    + reflexivity.
  - apply (proj1 (proj2 (proj2 (proj2 (exit_status sample_runtime
                           [lit "package_skill.py"; lit "bar"] w))))).
    + simpl. lia.
    + reflexivity.
  - apply (proj2 (proj2 (proj2 (proj2 (exit_status sample_runtime
             [lit "package_skill.py"; lit "foo"; lit "."; lit "nowhere"]
             w))))).
    + simpl. lia.
    + exists ENOENT. reflexivity.
Defined.

Lemma packaging_twice_witness :
  let w := sample_world four_lines_bytes in
  let first := package_skill sample_runtime (lit "foo") None None w in
  let second := package_skill sample_runtime (lit "foo") None None (snd first) in
  fst first = true
  /\ fst second = true
  /\ exists members,
       stat (fs (snd first)) (cwd (snd first)) (output_file (lit "foo") None w)
       = inr (File (Zip true members))
       /\ stat (fs (snd second)) (cwd (snd second))
            (output_file (lit "foo") None w)
          = inr (File (Zip true members)).
Proof.
  split; [reflexivity|].
  apply (packaging_twice sample_runtime (lit "foo") None None
           (sample_world four_lines_bytes)).
  reflexivity.
Defined.

(** Remark. The block is closed by the first later line that equals [---]
    once stripped, not by the first that is [---] alone: the manifest
    [---\nname: x\n --- \ndescription: y\n---\n] has both fields before
    its bare delimiter, and is rejected for want of [description:],
    because the line [ --- ] has closed the block. *)
Lemma closed_by_padded_delimiter :
  ~ (forall RT p w content first body closing rest,
       read_text RT (fs w) (cwd w) p = inr content ->
       Prefix delimiter content ->
       split NL content = first :: body ++ closing :: rest ->
       (forall line, In line body -> line <> delimiter) ->
       closing = delimiter ->
       Substring (lit "name:") (join [NL] body) ->
       Substring (lit "description:") (join [NL] body) ->
       fst (validate_frontmatter RT p w) = (true, None)).
Proof.
  intros H.
  specialize (H sample_runtime foo_manifest (sample_world early_close_bytes)
                early_close (lit "---")
                [lit "name: x"; lit " --- "; lit "description: y"]
                (lit "---") [[]] eq_refl).
  assert (E : fst (validate_frontmatter sample_runtime foo_manifest
                     (sample_world early_close_bytes))
              = (false, Some MissingDescription)) by reflexivity.
  rewrite E in H. discriminate H.
  - apply startswith_spec. reflexivity.
  - reflexivity.
  - intros line [<- | [<- | [<- | []]]]; apply neq_by_eqb; reflexivity.
  - reflexivity.
  - apply contains_spec. reflexivity.
  - apply contains_spec. reflexivity.
Qed.


(* ================================================================== *)
(** * Further properties: the two validators *)
(* ================================================================== *)

(** X1. [validate_skill_name] accepts exactly the strings of at most 64
    characters that are one or more lowercase letters, digits and hyphens,
    or such a string followed by a single newline. *)
Theorem accepted_names name :
  validate_skill_name name = (true, None) <->
  (well_formed_name name
   \/ exists p, well_formed_name p /\ name = p ++ [NL])
  /\ length name <= 64.
Proof.
  split.
  - intros H.
    assert (T : fst (validate_skill_name name) = true) by (rewrite H; reflexivity).
    apply validate_skill_name_true in T as [(p & WF & [-> | ->]) L].
    + split; [left; exact WF | exact L].
    + split; [right; exists p; auto | exact L].
  - intros [M L].
    assert (T : fst (validate_skill_name name) = true).
    { apply validate_skill_name_true. split; [|exact L].
      destruct M as [WF | (p & WF & ->)]; [exists name | exists p]; auto. }
    destruct (validate_skill_name_result name) as [E | [E | E]];
      rewrite E in T; [exact E | discriminate T | discriminate T].
Qed.

(** X2. The two failures of [validate_skill_name]. The format message is
    returned exactly for the strings that the pattern does not match,
    whatever their length; the length message exactly for the strings that
    it matches and that are longer than 64 characters. *)
Theorem rejected_names name :
  (validate_skill_name name = (false, Some InvalidFormat) <->
   ~ exists p, well_formed_name p /\ (name = p \/ name = p ++ [NL]))
  /\ (validate_skill_name name = (false, Some TooLong) <->
      (exists p, well_formed_name p /\ (name = p \/ name = p ++ [NL]))
      /\ 64 < length name).
Proof.
  rewrite <- match_name_pattern. unfold validate_skill_name.
  destruct (Re.match_ name_pattern name); cbn [negb].
  - destruct (64 <? length name) eqn:L.
    + apply Nat.ltb_lt in L. split; split.
      * intros H. clash.
      * intros H. exfalso. apply H. reflexivity.
      * auto.
      * reflexivity.
    + apply Nat.ltb_ge in L. split; split.
      * intros H. discriminate H.
      * intros H. exfalso. apply H. reflexivity.
      * intros H. discriminate H.
      * intros [_ H]. lia.
  - split; split.
    + intros _ H. discriminate H.
    + reflexivity.
    + intros H. clash.
    + intros [H _]. discriminate H.
Qed.

Lemma universal_newlines_crlf s :
  ~ In CR s -> universal_newlines (to_crlf s) = s.
Proof.
  induction s as [|c s IH]; intros H; [reflexivity|].
  assert (H' : ~ In CR s) by (intros I; apply H; right; exact I).
  assert (C : N.eqb c CR = false).
  { apply N.eqb_neq. intros ->. apply H. left. reflexivity. }
  cbn [to_crlf]. destruct (N.eqb c NL) eqn:E.
  - apply N.eqb_eq in E. subst c. cbn. rewrite (IH H'). reflexivity.
  - cbn [universal_newlines]. rewrite C, (IH H'). reflexivity.
Qed.

Section MoreFrontmatter.

Variable RT : Runtime.

(** X3. Line ends of Windows do not matter: a manifest whose bytes decode
    to a text with [\r\n] for every newline is judged as that text with
    plain newlines. *)
Theorem crlf_manifest p w data text :
  stat (fs w) (cwd w) p = inr (File (Raw data)) ->
  Utf8.decode data = Some (to_crlf text) ->
  ~ In CR text ->
  fst (validate_frontmatter RT p w) = check_frontmatter text.
Proof.
  intros S D H.
  assert (R : read_text RT (fs w) (cwd w) p = inr text).
  { unfold read_text. rewrite S. cbn [read_bytes]. rewrite D.
    rewrite (universal_newlines_crlf _ H). reflexivity. }
  rewrite (validate_frontmatter_read RT _ _ _ R). reflexivity.
Qed.

(** X4. Only the block counts: two readable manifests that begin with
    [---] and have the same lines between the first line and the closing
    delimiter get the same verdict, whatever follows [---] on the first
    line and whatever follows the closing delimiter. *)
Theorem text_outside_block_ignored p w p' w' content content'
    first first' body closing closing' rest rest' :
  read_text RT (fs w) (cwd w) p = inr content ->
  read_text RT (fs w') (cwd w') p' = inr content' ->
  Prefix delimiter content -> Prefix delimiter content' ->
  split NL content = first :: body ++ closing :: rest ->
  split NL content' = first' :: body ++ closing' :: rest' ->
  (forall line, In line body -> strip line <> delimiter) ->
  strip closing = delimiter -> strip closing' = delimiter ->
  fst (validate_frontmatter RT p w) = fst (validate_frontmatter RT p' w').
Proof.
  intros R R' P P' S S' B C C'.
  rewrite (validate_frontmatter_read RT _ _ _ R).
  rewrite (validate_frontmatter_read RT _ _ _ R'). cbn [fst].
  rewrite (check_frontmatter_fields _ _ _ _ _ P S B C).
  rewrite (check_frontmatter_fields _ _ _ _ _ P' S' B C'). reflexivity.
Qed.

End MoreFrontmatter.

(* ================================================================== *)
(** * Further properties: paths *)
(* ================================================================== *)


(* ================================================================== *)
(** * Further properties: what a run reports and what it leaves *)
(* ================================================================== *)

Lemma check_frontmatter_result content :
  check_frontmatter content = (true, None)
  \/ exists m, check_frontmatter content = (false, Some m).
Proof.
  unfold check_frontmatter.
  destruct (negb (startswith delimiter content)); [right; eauto|].
  destruct (_ =? -1)%Z; [right; eauto|].
  destruct (negb (contains (lit "name:") _)); [right; eauto|].
  destruct (negb (contains (lit "description:") _)); [right; eauto|].
  left. reflexivity.
Qed.

Lemma resolve_exists t comps : forall cur loc,
  resolve t cur comps = inr loc -> exists n, lookup t loc = Some n.
Proof.
  induction comps as [|c comps IH]; intros cur loc R; simpl in R.
  - destruct (lookup t cur) as [n|] eqn:L; [|discriminate R].
    inversion R; subst. exists n. exact L.
  - destruct (lookup t cur) as [[c0|es]|]; try discriminate R.
    destruct (eqb c DOTDOT); apply (IH _ _ R).
Qed.

Section MoreRuns.

Variable RT : Runtime.
Variables (skill_name : str) (source_path output_path : option str).
Variable w : world.

Local Abbreviation run :=
  (package_skill RT skill_name source_path output_path w).
Local Abbreviation sd := (source_dir skill_name source_path w).
Local Abbreviation md := (manifest skill_name source_path w).
Local Abbreviation out := (output_file skill_name output_path w).

Lemma validate_frontmatter_failure p m0 :
  fst (fst (validate_frontmatter RT p w)) = false ->
  snd (fst (validate_frontmatter RT p w)) = m0 ->
  exists m, m0 = Some m.
Proof.
  destruct (read_text RT (fs w) (cwd w) p) as [e|content] eqn:E.
  - rewrite (validate_frontmatter_unreadable RT _ _ _ E). cbn.
    intros _ <-. eauto.
  - rewrite (validate_frontmatter_read RT _ _ _ E). cbn [fst].
    destruct (check_frontmatter_result content) as [-> | [m ->]]; cbn.
    + discriminate.
    + intros _ <-. eauto.
Qed.


(** X8. A verdict of a validator is printed as it was returned: when the
    identifier is rejected, and when the identifier and the two paths are
    in order and the frontmatter is rejected, the validator has returned a
    message, the run fails, and the one line it prints is that message
    after the words " Error: ". *)
Theorem validator_message_reported :
  (fst (validate_skill_name skill_name) = false ->
   exists m, validate_skill_name skill_name = (false, Some m)
     /\ fst run = false
     /\ stdout (snd run) = stdout w ++ [CROSS ++ lit " Error: " ++ m])
  /\ (fst (validate_skill_name skill_name) = true ->
      present w sd = true -> present w md = true ->
      fst (fst (validate_frontmatter RT md w)) = false ->
      exists m, fst (validate_frontmatter RT md w) = (false, Some m)
        /\ fst run = false
        /\ stdout (snd run) = stdout w ++ [CROSS ++ lit " Error: " ++ m]).
Proof.
  split.
  - intros V. rewrite (package_skill_bad_name RT _ _ _ _ V). cbn [fst snd stdout].
    destruct (validate_skill_name_result skill_name) as [E | [E | E]];
      rewrite E in V |- *; [discriminate V | |]; eexists; auto.
  - intros V D S F.
    destruct (package_skill_frontmatter_message RT _ _ output_path _ V D S F)
      as (w' & -> & O).
    destruct (validate_frontmatter_failure _ _ F eq_refl) as [m E].
    exists m. cbn [fst snd]. rewrite O, E. cbn [fmt_opt].
    split; [|split; reflexivity].
    destruct (fst (validate_frontmatter RT md w)) as [ok msg].
    cbn [fst snd] in *. subst. reflexivity.
Qed.

(** X9. The output directory is never made: when the four checks pass and
    the output directory does not name a directory, the run fails and the
    tree is as it was. *)
Theorem output_directory_required :
  validated RT skill_name source_path w = true ->
  (forall es, stat (fs w) (cwd w) (base_dir output_path w) <> inr (Dir es)) ->
  fst run = false /\ fs (snd run) = fs w.
Proof.
  intros V ND. pose proof V as V'. apply validated_parts in V' as (N & _).
  assert (C : exists e, create_at (fs w) (cwd w) out = inl e).
  { unfold output_file. fold (base_dir output_path w).
    rewrite (joinpath_skill _ _ N). unfold create_at, stat, locate in *.
    cbn [parts absolute].
    change (origin (cwd w)
              (mkPath (absolute (base_dir output_path w))
                 (parts (base_dir output_path w) ++ [skill_name ++ lit ".skill"])))
      with (origin (cwd w) (base_dir output_path w)).
    rewrite removelast_last.
    destruct (parts (base_dir output_path w) ++ [skill_name ++ lit ".skill"])
      eqn:E; [destruct (parts (base_dir output_path w)); discriminate E|].
    destruct (resolve (fs w) (origin (cwd w) (base_dir output_path w))
                (parts (base_dir output_path w))) as [e|d]; [eauto|].
    destruct (lookup (fs w) d) as [[c0|es]|]; [eauto | | eauto].
    exfalso. apply (ND es). reflexivity. }
  destruct C as [e C]. apply (package_skill_not_opened RT _ _ _ _ e V C).
Qed.

(** What any run leaves. *)
Lemma run_tree :
  cwd (snd run) = cwd w
  /\ (fs (snd run) = fs w
      \/ exists loc members,
           create_at (fs w) (cwd w) out = inr loc
           /\ fs (snd run) = put (fs w) loc (Zip true members)).
Proof.
  destruct (validated RT skill_name source_path w) eqn:V.
  2:{ destruct (package_skill_rejected RT _ _ output_path _ V)
        as (w' & -> & F & C & _). auto. }
  destruct (create_at (fs w) (cwd w) out) as [e|loc] eqn:C.
  - destruct (package_skill_validated RT _ _ output_path _ V)
      as (w0 & (F & D & _) & E).
    rewrite E. unfold bind, zip_open. rewrite F, D, C. cbn. auto.
  - destruct (package_skill_opened RT _ _ output_path _ _ V C)
      as (w0 & E & F & D).
    destruct run as [r w'] eqn:R. symmetry in E.
    apply write_archive_tree in E as (D' & members & F').
    cbn [fst snd zf_loc] in *. split; [congruence|].
    right. exists loc, members. split; [reflexivity|].
    rewrite F', F. apply put_put.
Qed.

(** X10. A run changes at most its output file. The working directory
    stays; the tree is as it was or differs by a complete archive at the
    place of the output file, also when the run fails after having opened
    it; every path that named something names a thing of the same kind
    afterwards, so nothing is removed and no directory is made; and every
    file other than the output file reads as before. *)
Theorem run_frame :
  cwd (snd run) = cwd w
  /\ (fs (snd run) = fs w
      \/ exists loc members,
           create_at (fs w) (cwd w) out = inr loc
           /\ fs (snd run) = put (fs w) loc (Zip true members))
  /\ (forall q n, stat (fs w) (cwd w) q = inr n ->
        exists n', stat (fs (snd run)) (cwd (snd run)) q = inr n'
                   /\ is_dir n' = is_dir n)
  /\ (forall q c, stat (fs w) (cwd w) q = inr (File c) ->
        (forall loc, create_at (fs w) (cwd w) out = inr loc ->
                     locate (fs w) (cwd w) q <> inr loc) ->
        stat (fs (snd run)) (cwd (snd run)) q = inr (File c)).
Proof.
  destruct run_tree as [C T]. split; [exact C|]. split; [exact T|].
  rewrite C. split.
  - intros q n S. destruct T as [-> | (loc & members & K & ->)].
    + exists n. auto.
    + destruct (stat_after_create _ _ _ _ K (Zip true members) _ _ S)
        as (n' & S' & D & _). exists n'. auto.
  - intros q c S O. destruct T as [-> | (loc & members & K & ->)]; [exact S|].
    destruct (stat_after_create _ _ _ _ K (Zip true members) _ _ S)
      as (n' & S' & _ & E). rewrite S'. rewrite E; auto.
Qed.

(** X11. [True] is returned only after the four checks: a successful run
    had an accepted identifier, an existing source path with a [SKILL.md]
    in it and an accepted frontmatter, and it leaves a complete archive
    under the output path. *)
Theorem success_only_after_checks :
  fst run = true ->
  fst (validate_skill_name skill_name) = true
  /\ present w sd = true
  /\ present w md = true
  /\ fst (validate_frontmatter RT md w) = (true, None)
  /\ exists members,
       stat (fs (snd run)) (cwd (snd run)) out = inr (File (Zip true members)).
Proof.
  intros H. destruct run as [r w'] eqn:R. cbn [fst snd] in *. subst r.
  destruct (package_skill_success RT _ _ _ _ _ R)
    as (V & loc & members & C & F & D).
  apply validated_parts in V as (N & P1 & P2 & F1).
  repeat (split; [assumption|]). split.
  - unfold frontmatter_ok in F1.
    destruct (read_text RT (fs w) (cwd w) md) as [e|content] eqn:E;
      [discriminate F1|].
    rewrite (validate_frontmatter_read RT _ _ _ E). cbn [fst].
    destruct (check_frontmatter_result content) as [-> | [m K]];
      [reflexivity|]. rewrite K in F1. discriminate F1.
  - exists members. rewrite F, D. apply stat_created. exact C.
Qed.

End MoreRuns.

(* ================================================================== *)
(** * Further properties: what is printed while the archive is written *)
(* ================================================================== *)

Section Listing.

Variable RT : Runtime.

(** The inner loop prints one line for each member it adds, also when it
    is ended by an exception. *)
Lemma write_files_listing root source_parent files :
  forall zipf w zipf' raised w',
  write_files RT zipf root source_parent files w = (zipf', raised, w') ->
  exists added lines,
    zf_members zipf' = zf_members zipf ++ added
    /\ stdout w' = stdout w ++ lines
    /\ Forall2 listed added lines.
Proof.
  induction files as [|file files IH]; intros zipf w zipf' raised w' H;
    cbn [write_files] in H.
  - inversion H; subst. exists [], []. rewrite !app_nil_r.
    repeat split. constructor.
  - destruct (relative_to (joinpath root file) source_parent) as [arcname|].
    2:{ inversion H; subst. exists [], []. rewrite !app_nil_r.
        repeat split. constructor. }
    unfold bind at 1 in H. unfold zip_write in H.
    destruct (stat (fs w) (cwd w) (joinpath root file)) as [e|n].
    { inversion H; subst. exists [], []. rewrite !app_nil_r.
      repeat split. constructor. }
    unfold bind at 1 in H. cbn [print] in H.
    apply IH in H as (added & lines & A & O & L).
    cbn [zf_members stdout set_fs log] in A, O.
    eexists (_ :: added), (_ :: lines).
    rewrite A, O, <- !app_assoc. split; [reflexivity|].
    split; [reflexivity|]. constructor; [|exact L].
    destruct n; [left | right]; cbn [fst]; [reflexivity|].
    rewrite <- app_assoc. reflexivity.
Qed.

Lemma write_tree_listing source_parent triples :
  forall zipf w zipf' raised w',
  write_tree RT zipf source_parent triples w = (zipf', raised, w') ->
  exists added lines,
    zf_members zipf' = zf_members zipf ++ added
    /\ stdout w' = stdout w ++ lines
    /\ Forall2 listed added lines.
Proof.
  induction triples as [|[[root dirs] files] triples IH];
    intros zipf w zipf' raised w' H; cbn [write_tree] in H.
  - inversion H; subst. exists [], []. rewrite !app_nil_r.
    repeat split. constructor.
  - unfold bind at 1 in H.
    destruct (write_files RT zipf root source_parent files w)
      as [[zipf1 raised1] w1] eqn:F.
    apply write_files_listing in F as (a1 & l1 & A1 & O1 & L1).
    destruct raised1 as [e|].
    + inversion H; subst. exists a1, l1. auto.
    + apply IH in H as (a2 & l2 & A2 & O2 & L2).
      exists (a1 ++ a2), (l1 ++ l2).
      rewrite A2, A1, O2, O1, <- !app_assoc.
      repeat split. apply Forall2_app; assumption.
Qed.

(** A [with] block that ends well leaves the archive with the members
    listed, and the report gives the size of the file as it stands. *)
Lemma write_archive_listing source_path output_file zipf w w' :
  (forall c, stat (put (fs w) (zf_loc zipf) c) (cwd w) output_file
             = inr (File c)) ->
  write_archive RT source_path output_file zipf w = (true, w') ->
  exists added lines,
    let members := zf_members zipf ++ added in
    fs w' = put (fs w) (zf_loc zipf) (Zip true members)
    /\ Forall2 listed added lines
    /\ stdout w' = stdout w ++ lines
         ++ report RT output_file
              (N.of_nat (length (read_bytes RT (Zip true members)))).
Proof.
  intros S. unfold write_archive. unfold bind at 1. unfold os_walk at 1.
  unfold bind at 1.
  match goal with
  | |- context [write_tree RT zipf ?sp ?tr ?w1] =>
      destruct (write_tree RT zipf sp tr w1) as [[zipf' raised] w2] eqn:T
  end.
  pose proof (write_tree_touch RT _ _ _ _ _ _ _ T) as (L & C & T').
  apply write_tree_listing in T as (added & lines & A & O & Li).
  cbn [fst snd fs cwd stdout log log_all] in *.
  unfold bind at 1. cbn [zip_close].
  assert (E : put (fs w2) (zf_loc zipf') (Zip true (zf_members zipf')) =
              put (fs w) (zf_loc zipf) (Zip true (zf_members zipf'))).
  { rewrite L. apply put_touched. exact T'. }
  destruct raised as [e|].
  { intros H. inversion H. }
  unfold bind at 1. unfold stat_size at 1.
  cbn [fs cwd set_fs log]. rewrite E, C, S.
  intros H. inversion H; subst. clear H.
  exists added, lines. cbn [fs stdout set_fs log].
  split; [rewrite A; reflexivity|]. split; [exact Li|].
  rewrite O, A. unfold report. rewrite <- !app_assoc. reflexivity.
Qed.

Variables (skill_name : str) (source_path output_path : option str).
Variable w : world.

Local Abbreviation run :=
  (package_skill RT skill_name source_path output_path w).
Local Abbreviation out := (output_file skill_name output_path w).

(** X14. What a successful run prints is a true account of the archive:
    after what stood on the output, the two lines that announce the
    archive, then one line [  + <arcname>] for each member of the archive
    left on disk, in the order of the members (a member made from a
    directory carries one more slash than its line), then the report, whose
    size is that of the archive file. *)
Theorem listing_matches_archive :
  fst run = true ->
  exists members lines,
    stat (fs (snd run)) (cwd (snd run)) out = inr (File (Zip true members))
    /\ Forall2 listed members lines
    /\ stdout (snd run)
       = stdout w ++ announcement skill_name out ++ lines
         ++ report RT out
              (N.of_nat (length (read_bytes RT (Zip true members)))).
Proof.
  intros H. destruct run as [ok w1] eqn:R. cbn [fst snd] in *. subst ok.
  pose proof (package_skill_success RT _ _ _ _ _ R) as (V & loc & _ & C & _ & D1).
  destruct (package_skill_announced RT _ _ output_path _ V)
    as (w0 & ((F & D & _) & O) & E).
  rewrite E in R. unfold bind at 1 in R. unfold zip_open in R.
  rewrite F, D, C in R.
  apply write_archive_listing in R as (added & lines & F1 & L & O1).
  - cbn [zf_loc zf_members app fs cwd stdout set_fs log] in *.
    rewrite put_put in F1.
    exists added, lines. split; [|split; [exact L|]].
    + rewrite F1.
      rewrite D1. apply stat_created. exact C.
    + rewrite O1, O, <- !app_assoc. reflexivity.
  - intros c. cbn [zf_loc fs cwd set_fs log]. rewrite ?F, ?D, put_put.
    apply stat_created. exact C.
Qed.

End Listing.

(* ================================================================== *)
(** * Further properties: verdicts and the entry point *)
(* ================================================================== *)

Lemma check_frontmatter_messages content :
  check_frontmatter content = (true, None)
  \/ exists m, check_frontmatter content = (false, Some m)
       /\ In m [MissingStart; MissingEnd; MissingName; MissingDescription].
Proof.
  unfold check_frontmatter.
  destruct (negb (startswith delimiter content));
    [right; eexists; split; [reflexivity | cbn; tauto]|].
  destruct (_ =? -1)%Z;
    [right; eexists; split; [reflexivity | cbn; tauto]|].
  destruct (negb (contains (lit "name:") _));
    [right; eexists; split; [reflexivity | cbn; tauto]|].
  destruct (negb (contains (lit "description:") _));
    [right; eexists; split; [reflexivity | cbn; tauto]|].
  left. reflexivity.
Qed.

(** X15. [validate_frontmatter] always comes back with a verdict, whatever
    stands at the path: success without a message, or failure with a
    message, which is one of the four messages about the block or begins
    with [Error reading SKILL.md: ] (the path is missing, is a directory,
    or is not UTF-8). It opens the path once to read, prints nothing and
    leaves the file system as it was. *)
Theorem validate_frontmatter_verdict RT p w :
  let r := validate_frontmatter RT p w in
  (fst r = (true, None)
   \/ exists m, fst r = (false, Some m)
        /\ (In m [MissingStart; MissingEnd; MissingName; MissingDescription]
            \/ Prefix (lit "Error reading SKILL.md: ") m))
  /\ fs (snd r) = fs w /\ cwd (snd r) = cwd w
  /\ stdout (snd r) = stdout w
  /\ trace (snd r) = trace w ++ [OpenRead p].
Proof.
  cbv zeta.
  destruct (read_text RT (fs w) (cwd w) p) as [e|content] eqn:E.
  - rewrite (validate_frontmatter_unreadable RT _ _ _ E). cbn [fst snd].
    split; [|repeat split].
    right. eexists. split; [reflexivity|]. right. eexists. reflexivity.
  - rewrite (validate_frontmatter_read RT _ _ _ E). cbn [fst snd].
    split; [|repeat split].
    destruct (check_frontmatter_messages content) as [-> | (m & -> & I)];
      [left; reflexivity | right; eauto].
Qed.

(** X6. [main] does to the file system what [package_skill] does on its
    arguments, and nothing else: without an identifier it prints the four
    lines of the usage and asks nothing of the file system; with one, the
    tree and the working directory it leaves are those [package_skill]
    leaves when called on the world [main] was started in. *)
Theorem main_file_system RT argv w :
  (length argv < 2 ->
   snd (main RT argv w)
   = mkWorld (fs w) (cwd w)
       (stdout w
        ++ [lit "Usage: python package_skill.py <skill-name> [source-path] [output-path]";
            NL :: lit "Examples:";
            lit "  python package_skill.py simple-greeter";
            lit "  python package_skill.py my-skill /path/to/skills ."])
       (trace w))
  /\ (2 <= length argv ->
      agree (snd (main RT argv w))
            (snd (package_skill RT (nth 1 argv []) (nth_error argv 2)
                    (nth_error argv 3) w))).
Proof.
  split; intros L.
  - apply Nat.ltb_lt in L. unfold main. rewrite L.
    cbn. rewrite <- !app_assoc. reflexivity.
  - apply Nat.ltb_ge in L. unfold main. rewrite L.
    unfold bind at 1. cbn [print]. unfold bind at 1.
    match goal with
    | |- context [package_skill RT ?n ?s ?o ?w1] =>
        destruct (stable_package_skill RT n s o w1 w) as [_ A];
        [split; reflexivity|];
        destruct (package_skill RT n s o w1) as [ok w2]
    end.
    cbn [fst snd ret] in *. exact A.
Qed.

(* ================================================================== *)
(** * Further instances *)
(* ================================================================== *)

Lemma crlf_manifest_witness :
  let w := sample_world four_lines_crlf_bytes in
  stat (fs w) (cwd w) foo_manifest = inr (File (Raw four_lines_crlf_bytes))
  /\ Utf8.decode four_lines_crlf_bytes = Some (to_crlf four_lines)
  /\ ~ In CR four_lines
  /\ fst (validate_frontmatter sample_runtime foo_manifest w) = (true, None).
Proof.
  intros w.
  assert (S : stat (fs w) (cwd w) foo_manifest
              = inr (File (Raw four_lines_crlf_bytes))) by reflexivity.
  assert (D : Utf8.decode four_lines_crlf_bytes = Some (to_crlf four_lines))
    by reflexivity.
  assert (H : ~ In CR four_lines).
  { intros I. vm_compute in I. repeat (destruct I as [I | I]; [discriminate I|]).
    exact I. }
  repeat (split; [assumption|]).
  exact (crlf_manifest sample_runtime foo_manifest w four_lines_crlf_bytes
           four_lines S D H).
Defined.

Lemma text_outside_block_ignored_witness :
  let w := sample_world four_lines_bytes in
  let w' := sample_world decorated_bytes in
  read_text sample_runtime (fs w) (cwd w) foo_manifest = inr four_lines
  /\ read_text sample_runtime (fs w') (cwd w') foo_manifest = inr decorated
  /\ fst (validate_frontmatter sample_runtime foo_manifest w)
     = fst (validate_frontmatter sample_runtime foo_manifest w').
Proof.
  intros w w'. split; [reflexivity|]. split; [reflexivity|].
  apply (text_outside_block_ignored sample_runtime foo_manifest w
           foo_manifest w' four_lines decorated
           (lit "---") (lit "--- # skill")
           [lit "name: x"; lit "description: y"]
           (lit "---") (lit "--- ") [[]] [lit "# Title"]);
    try reflexivity.
  - apply startswith_spec. reflexivity.
  - apply startswith_spec. reflexivity.
  - intros line [<- | [<- | []]]; apply neq_by_eqb; reflexivity.
Defined.



Lemma validator_message_reported_witness :
  let w := sample_world padded_bytes in
  (exists m, validate_skill_name (lit "Foo_Bar") = (false, Some m)
     /\ fst (package_skill sample_runtime (lit "Foo_Bar") None None w) = false
     /\ stdout (snd (package_skill sample_runtime (lit "Foo_Bar") None None w))
        = stdout w ++ [CROSS ++ lit " Error: " ++ m])
  /\ (exists m,
        fst (validate_frontmatter sample_runtime
               (manifest (lit "foo") None w) w) = (false, Some m)
        /\ fst (package_skill sample_runtime (lit "foo") None None w) = false
        /\ stdout (snd (package_skill sample_runtime (lit "foo") None None w))
           = stdout w ++ [CROSS ++ lit " Error: " ++ m]).
Proof.
  intros w. split.
  - apply (proj1 (validator_message_reported sample_runtime (lit "Foo_Bar")
                    None None w)).
    reflexivity.
  - apply (proj2 (validator_message_reported sample_runtime (lit "foo")
                    None None w)); reflexivity.
Defined.

Lemma output_directory_required_witness :
  let w := sample_world four_lines_bytes in
  let r := package_skill sample_runtime (lit "foo") None
             (Some (lit "nowhere")) w in
  validated sample_runtime (lit "foo") None w = true
  /\ stat (fs w) (cwd w) (base_dir (Some (lit "nowhere")) w) = inl ENOENT
  /\ fst r = false /\ fs (snd r) = fs w.
Proof.
  split; [reflexivity|]. split; [reflexivity|].
  apply (output_directory_required sample_runtime (lit "foo") None
           (Some (lit "nowhere")) (sample_world four_lines_bytes)).
  - reflexivity.
  - intros es H. vm_compute in H. discriminate H.
Defined.

Lemma run_frame_witness :
  let w := sample_world four_lines_bytes in
  let w' := snd (package_skill sample_runtime (lit "foo") None None w) in
  stat (fs w) (cwd w) foo_manifest = inr (File (Raw four_lines_bytes))
  /\ stat (fs w') (cwd w') foo_manifest = inr (File (Raw four_lines_bytes)).
Proof.
  intros w w'. split; [reflexivity|].
  apply (proj2 (proj2 (proj2 (run_frame sample_runtime (lit "foo") None None
                                w)))).
  - reflexivity.
  - intros loc C L. vm_compute in C, L. rewrite <- C in L.
    apply (f_equal (fun x => match x with
                             | inr l => length l
                             | inl _ => 0
                             end)) in L.
    discriminate L.
Defined.

Lemma success_only_after_checks_witness :
  let w := sample_world four_lines_bytes in
  let r := package_skill sample_runtime (lit "foo") None None w in
  fst r = true
  /\ fst (validate_skill_name (lit "foo")) = true
  /\ present w (source_dir (lit "foo") None w) = true
  /\ present w (manifest (lit "foo") None w) = true
  /\ fst (validate_frontmatter sample_runtime (manifest (lit "foo") None w) w)
     = (true, None)
  /\ exists members,
       stat (fs (snd r)) (cwd (snd r)) (output_file (lit "foo") None w)
       = inr (File (Zip true members)).
Proof.
  split; [reflexivity|].
  apply (success_only_after_checks sample_runtime (lit "foo") None None
           (sample_world four_lines_bytes)).
  reflexivity.
Defined.


Lemma listing_matches_archive_witness :
  let r := package_skill sample_runtime (lit "foo") None None deep_world in
  fst r = true
  /\ exists members lines,
       stat (fs (snd r)) (cwd (snd r)) (output_file (lit "foo") None deep_world)
       = inr (File (Zip true members))
       /\ Forall2 listed members lines
       /\ stdout (snd r)
          = stdout deep_world
            ++ announcement (lit "foo") (output_file (lit "foo") None deep_world)
            ++ lines
            ++ report sample_runtime (output_file (lit "foo") None deep_world)
                 (N.of_nat (length (read_bytes sample_runtime
                                      (Zip true members)))).
Proof.
  split; [reflexivity|].
  apply (listing_matches_archive sample_runtime (lit "foo") None None
           deep_world).
  reflexivity.
Defined.

Lemma main_file_system_witness :
  let w := sample_world four_lines_bytes in
  let prog := lit "package_skill.py" in
  (length [prog] < 2
   /\ fs (snd (main sample_runtime [prog] w)) = fs w
   /\ trace (snd (main sample_runtime [prog] w)) = trace w)
  /\ (2 <= length [prog; lit "foo"]
      /\ agree (snd (main sample_runtime [prog; lit "foo"] w))
               (snd (package_skill sample_runtime (lit "foo") None None w))).
Proof.
  intros w prog. split.
  - assert (L : length [prog] < 2) by (cbn; lia).
    split; [exact L|].
    rewrite (proj1 (main_file_system sample_runtime [prog] w) L).
    split; reflexivity.
  - assert (L : 2 <= length [prog; lit "foo"]) by (cbn; lia).
    split; [exact L|].
    exact (proj2 (main_file_system sample_runtime [prog; lit "foo"] w) L).
Defined.
